(** * The URL registry of [src/services/urlService.ts]

    A shallow embedding of the [UrlService] class and of the record types of
    [types/url.ts], followed by the properties of the registry.

    Conventions of the model.
    - Instants are milliseconds since the epoch, as [Z].  The source stores
      [createdAt], [expiresAt] and a click's [timestamp] as ISO-8601 strings
      and reads them back with [new Date(s)]; the string and the instant it
      denotes are identified here (all instants are taken inside the range
      of an ECMAScript [Date], where the round trip is exact).
    - [validityMinutes] is an integer number of minutes, as the form that
      calls the service produces with [parseInt].
    - The environment of an operation (the readings of the clock, the fresh
      identifier, the outcomes of [Math.random], [navigator.userAgent]) is
      an explicit argument of the operation.  [getAllUrls] reads the clock
      once per stored mapping; these readings are taken to be one instant.
    - [localStorage] is the [storage] component of the state; a write is
      taken to succeed (the source swallows a failing one).  The logger is
      advisory and is left out. *)

From Stdlib Require Import String Ascii List ZArith Bool Arith Lia.
From Stdlib Require Import Permutation Sorted.
From Stdlib Require DecimalString.
Import ListNotations.

Local Open Scope string_scope.
Local Open Scope list_scope.
Local Open Scope nat_scope.

(** ** Records of [types/url.ts] *)

Record ClickData : Type := mkClick {
  click_id  : string;
  timestamp : Z;
  source    : string;
  location  : string;
  userAgent : option string
}.

Record ShortenedUrl : Type := mkUrl {
  id          : string;
  originalUrl : string;
  shortCode   : string;
  customCode  : option string;
  createdAt   : Z;
  expiresAt   : Z;
  isExpired   : bool;
  clicks      : list ClickData;
  totalClicks : nat
}.

Record CreateUrlRequest : Type := mkRequest {
  req_originalUrl : string;
  validityMinutes : option Z;
  customShortCode : option string
}.

Record GeolocationData : Type := mkGeo {
  country : string;
  region  : string;
  city    : string
}.

(** In-place writes to the fields of a stored object. *)

Definition set_isExpired (b : bool) (u : ShortenedUrl) : ShortenedUrl :=
  mkUrl (id u) (originalUrl u) (shortCode u) (customCode u) (createdAt u)
        (expiresAt u) b (clicks u) (totalClicks u).

(** [url.clicks.push(c); url.totalClicks = url.clicks.length] *)
Definition push_click (c : ClickData) (u : ShortenedUrl) : ShortenedUrl :=
  let cs := clicks u ++ [c] in
  mkUrl (id u) (originalUrl u) (shortCode u) (customCode u) (createdAt u)
        (expiresAt u) (isExpired u) cs (List.length cs).

(** ** The JavaScript [Map<string, ShortenedUrl>]

    A [Map] iterates in insertion order and [find] takes the first match, so
    the map is an association list whose keys are kept distinct by [set]. *)

Module JsMap.

Definition t : Type := list (string * ShortenedUrl).

Definition empty : t := [].

Fixpoint has (k : string) (m : t) : bool :=
  match m with
  | [] => false
  | (k', _) :: r => if String.eqb k' k then true else has k r
  end.

Fixpoint get (k : string) (m : t) : option ShortenedUrl :=
  match m with
  | [] => None
  | (k', v) :: r => if String.eqb k' k then Some v else get k r
  end.

(** [m.set(k, v)]: an existing key keeps its place, a new one goes last. *)
Fixpoint set (k : string) (v : ShortenedUrl) (m : t) : t :=
  match m with
  | [] => [(k, v)]
  | (k', v') :: r =>
      if String.eqb k' k then (k, v) :: r else (k', v') :: set k v r
  end.

(** [m.delete(k)], the map that is left. *)
Fixpoint delete (k : string) (m : t) : t :=
  match m with
  | [] => []
  | (k', v') :: r =>
      if String.eqb k' k then r else (k', v') :: delete k r
  end.

Definition keys (m : t) : list string := map fst m.

(** [Array.from(m.values())] *)
Definition values (m : t) : list ShortenedUrl := map snd m.

(** [new Map(entries)] *)
Definition of_entries (entries : list (string * ShortenedUrl)) : t :=
  fold_left (fun m e => set (fst e) (snd e) m) entries empty.

(** The object that [values().find(p)] returns is the stored one: a write
    through it changes the first entry whose value satisfies [p]. *)
Fixpoint update_first (p : ShortenedUrl -> bool)
         (f : ShortenedUrl -> ShortenedUrl) (m : t) : t :=
  match m with
  | [] => []
  | (k, v) :: r =>
      if p v then (k, f v) :: r else (k, v) :: update_first p f r
  end.

(** A write through every object of [values()] ([forEach]). *)
Definition update_all (f : ShortenedUrl -> ShortenedUrl) (m : t) : t :=
  map (fun e => (fst e, f (snd e))) m.

End JsMap.

(** ** State of the service *)

Record UrlService : Type := mkService {
  urls    : JsMap.t;
  storage : option (list (string * ShortenedUrl))
}.

(** [saveToStorage]: the whole snapshot of entries overwrites the item. *)
Definition saveToStorage (st : UrlService) : UrlService :=
  mkService (urls st) (Some (urls st)).

(** [loadFromStorage], run by the constructor on the item found (if any). *)
Definition loadFromStorage (item : option (list (string * ShortenedUrl)))
  : UrlService :=
  match item with
  | Some entries => mkService (JsMap.of_entries entries) item
  | None => mkService JsMap.empty None
  end.

(** [clearAllData] *)
Definition clearAllData (st : UrlService) : UrlService :=
  mkService JsMap.empty None.

(** ** Short codes *)

Definition characters : string :=
  "ABCDEFGHIJKLMNOPQRSTUVWXYZabcdefghijklmnopqrstuvwxyz0123456789".

(** [s.charAt(i)]: the empty string outside of [s]. *)
Definition charAt (s : string) (i : nat) : string :=
  match String.get i s with
  | Some c => String c EmptyString
  | None => EmptyString
  end.

(** The random source: [rnd k] is the value of
    [Math.floor(Math.random() * characters.length)] at the [k]-th call of
    [Math.random] made by the operation. *)
Definition Random : Type := nat -> nat.

(** The [for] loop of [generateShortCode]: [n] rounds are left, [k] calls of
    [Math.random] have been made. *)
Fixpoint generateShortCode_loop (rnd : Random) (n k : nat) (result : string)
  : string * nat :=
  match n with
  | O => (result, k)
  | S n' =>
      generateShortCode_loop rnd n' (S k)
        (String.append result (charAt characters (rnd k)))
  end.

Definition generateShortCode (rnd : Random) (length k : nat) : string * nat :=
  generateShortCode_loop rnd length k "".

Definition code_matches (code : string) (url : ShortenedUrl) : bool :=
  String.eqb (shortCode url) code.

Definition isShortCodeTaken (m : JsMap.t) (code : string) : bool :=
  existsb (code_matches code) (JsMap.values m).

Definition maxAttempts : nat := 100.

(** The [do ... while] loop of [generateUniqueShortCode]; [fuel] bounds the
    number of rounds, [attempts] is the counter of the source. *)
Fixpoint generateUnique_loop (m : JsMap.t) (rnd : Random)
         (fuel attempts k : nat) : option (string * nat) :=
  match fuel with
  | O => None
  | S fuel' =>
      let '(code, k1) := generateShortCode rnd 6 k in
      let attempts' := S attempts in
      if maxAttempts <? attempts' then
        Some (generateShortCode rnd 8 k1)
      else if isShortCodeTaken m code then
        generateUnique_loop m rnd fuel' attempts' k1
      else Some (code, k1)
  end.

Definition generateUniqueShortCode (m : JsMap.t) (rnd : Random)
  : option string :=
  option_map fst (generateUnique_loop m rnd (S maxAttempts) 0 0).

(** The test of [/^[A-Za-z0-9]{1,20}$/]. *)
Definition isAlnum (c : ascii) : bool :=
  let n := nat_of_ascii c in
  ((65 <=? n) && (n <=? 90)) || ((97 <=? n) && (n <=? 122))
  || ((48 <=? n) && (n <=? 57)).

Definition isValidShortCode (code : string) : bool :=
  (1 <=? String.length code) && (String.length code <=? 20)
  && forallb isAlnum (list_ascii_of_string code).

(** ** Outcome of [createShortenedUrl]

    The source throws [new Error(message)]; the three messages are named
    after the failure they report.  [OutOfFuel] is the outcome of a model
    loop that was not given enough rounds (shown below never to occur). *)

Inductive CreateResult : Type :=
| Created (url : ShortenedUrl)
| Thrown (message : string)
| OutOfFuel.

Definition InvalidUrl : CreateResult := Thrown "Invalid URL format".

Definition InvalidShortCode : CreateResult :=
  Thrown
    "Invalid short code format. Use only alphanumeric characters (1-20 chars)".

Definition ShortCodeTaken : CreateResult :=
  Thrown "Short code already exists. Please choose a different one.".

(** What the environment supplies to one [createShortenedUrl]: the instant
    of [new Date()]; the identifier
    [Date.now().toString() + Math.random().toString(36).substr(2, 9)], which
    nothing makes differ from the stored ones; the draws of
    [generateShortCode]. *)
Record CreateEnv : Type := mkCreateEnv {
  now     : Z;
  fresh   : string;
  randoms : Random
}.

(** What the environment supplies to one [recordClickAndRedirect]: the
    instant read by [getUrlByShortCode], the identifier and the instant of
    the click, and [navigator.userAgent]. *)
Record ClickEnv : Type := mkClickEnv {
  at_time     : Z;
  click_fresh : string;
  click_time  : Z;
  agent       : option string
}.

(** A JavaScript string is truthy when it is present and not empty. *)
Definition truthy_string (s : option string) : option string :=
  match s with
  | Some EmptyString => None
  | other => other
  end.

(** [request.validityMinutes || 30]: an absent number and [0] are falsy. *)
Definition validity_or_default (v : option Z) : Z :=
  match v with
  | Some m => if Z.eqb m 0 then 30%Z else m
  | None => 30%Z
  end.

(** [getLocationData] *)
Definition getLocationData : GeolocationData :=
  mkGeo "Unknown" "Unknown" "Unknown".

(** The click that [recordClickAndRedirect] builds; [src] is the optional
    second argument, ["direct"] when it is left out. *)
Definition click_of (src : option string) (env : ClickEnv) : ClickData :=
  mkClick (click_fresh env) (click_time env)
          (match src with Some s => s | None => "direct" end)
          (country getLocationData) (agent env).

(** The comparison function given to [sort] in [getAllUrls]. *)
Definition compare_createdAt (a b : ShortenedUrl) : Z :=
  (createdAt b - createdAt a)%Z.

(** [Array.prototype.sort] is stable; under a consistent comparison function
    its result is the one that insertion from the right produces. *)
Fixpoint sort_insert (cmp : ShortenedUrl -> ShortenedUrl -> Z)
         (x : ShortenedUrl) (l : list ShortenedUrl) : list ShortenedUrl :=
  match l with
  | [] => [x]
  | y :: r =>
      if Z.leb (cmp x y) 0 then x :: y :: r else y :: sort_insert cmp x r
  end.

Definition sort (cmp : ShortenedUrl -> ShortenedUrl -> Z)
           (l : list ShortenedUrl) : list ShortenedUrl :=
  fold_right (sort_insert cmp) [] l.

(** ** Vocabulary of the properties *)

(** The characters a draw is made of: one [charAt] per call of the source. *)
Definition drawn_chars (rnd : Random) (k n : nat) : list string :=
  map (fun i => charAt characters (rnd i)) (seq k n).

Fixpoint join (parts : list string) : string :=
  match parts with
  | [] => ""
  | p :: r => String.append p (join r)
  end.

(** The [i]-th six-character draw of one [generateUniqueShortCode] (from 0),
    and the eight-character draw that follows 101 of them. *)
Definition draw6 (rnd : Random) (i : nat) : string :=
  fst (generateShortCode rnd 6 (6 * i)).

Definition fallback8 (rnd : Random) : string :=
  fst (generateShortCode rnd 8 (6 * S maxAttempts)).

Definition codes (m : JsMap.t) : list string :=
  map shortCode (JsMap.values m).

(** All of the first [maxAttempts] six-character draws are held. *)
Definition all_draws_taken (m : JsMap.t) (rnd : Random) : bool :=
  forallb (fun i => isShortCodeTaken m (draw6 rnd i)) (seq 0 maxAttempts).

(** Creation falls back on the unchecked eight-character draw: no truthy
    custom code, and the 100 six-character draws are all held. *)
Definition used_fallback (m : JsMap.t) (request : CreateUrlRequest)
           (env : CreateEnv) : bool :=
  match truthy_string (customShortCode request) with
  | Some _ => false
  | None => all_draws_taken m (randoms env)
  end.

(** The mapping that a creation with code [code] stores. *)
Definition new_mapping (request : CreateUrlRequest) (env : CreateEnv)
           (code : string) : ShortenedUrl :=
  mkUrl (fresh env) (req_originalUrl request) code (customShortCode request)
        (now env)
        (now env + validity_or_default (validityMinutes request) * 60 * 1000)%Z
        false [] 0.

Section Service.

(** [isValidUrl]: whether the platform's [new URL(url)] returns. *)
Variable isValidUrl : string -> bool.

Definition createShortenedUrl (st : UrlService) (request : CreateUrlRequest)
           (env : CreateEnv) : CreateResult * UrlService :=
  if negb (isValidUrl (req_originalUrl request)) then (InvalidUrl, st)
  else
    let chosen :=
      match truthy_string (customShortCode request) with
      | Some custom =>
          if negb (isValidShortCode custom) then inr InvalidShortCode
          else if isShortCodeTaken (urls st) custom then inr ShortCodeTaken
          else inl custom
      | None =>
          match generateUniqueShortCode (urls st) (randoms env) with
          | Some code => inl code
          | None => inr OutOfFuel
          end
      end in
    match chosen with
    | inr failure => (failure, st)
    | inl code =>
        let minutes := validity_or_default (validityMinutes request) in
        let expires := (now env + minutes * 60 * 1000)%Z in
        let shortenedUrl :=
          mkUrl (fresh env) (req_originalUrl request) code
                (customShortCode request) (now env) expires false [] 0 in
        (Created shortenedUrl,
         saveToStorage
           (mkService (JsMap.set (id shortenedUrl) shortenedUrl (urls st))
                      (storage st)))
    end.

(** [getUrlByShortCode] at the instant [t]. *)
Definition getUrlByShortCode (st : UrlService) (code : string) (t : Z)
  : option ShortenedUrl * UrlService :=
  match find (code_matches code) (JsMap.values (urls st)) with
  | None => (None, st)
  | Some url =>
      if Z.gtb t (expiresAt url) then
        (None,
         saveToStorage
           (mkService
              (JsMap.update_first (code_matches code) (set_isExpired true)
                                  (urls st))
              (storage st)))
      else (Some url, st)
  end.

(** [recordClickAndRedirect]; [src] is the optional second argument. *)
Definition recordClickAndRedirect (st : UrlService) (code : string)
           (src : option string) (env : ClickEnv)
  : option string * UrlService :=
  match getUrlByShortCode st code (at_time env) with
  | (None, st') => (None, st')
  | (Some url, st') =>
      let clickData := click_of src env in
      (Some (originalUrl url),
       saveToStorage
         (mkService
            (JsMap.update_first (code_matches code) (push_click clickData)
                                (urls st'))
            (storage st')))
  end.

(** The write of the [forEach] of [getAllUrls]. *)
Definition refresh_expired (t : Z) (url : ShortenedUrl) : ShortenedUrl :=
  if Z.gtb t (expiresAt url) then set_isExpired true url else url.

(** [getAllUrls] at the instant [t]. *)
Definition getAllUrls (st : UrlService) (t : Z)
  : list ShortenedUrl * UrlService :=
  let st' :=
    saveToStorage
      (mkService (JsMap.update_all (refresh_expired t) (urls st))
                 (storage st)) in
  (sort compare_createdAt (JsMap.values (urls st')), st').

(** [deleteUrl] *)
Definition deleteUrl (st : UrlService) (key : string)
  : bool * UrlService :=
  if JsMap.has key (urls st) then
    (true, saveToStorage (mkService (JsMap.delete key (urls st)) (storage st)))
  else (false, st).

(** ** Runs of the service *)

Inductive Op : Type :=
| OpCreate (request : CreateUrlRequest) (env : CreateEnv)
| OpLookup (code : string) (t : Z)
| OpRecord (code : string) (src : option string) (env : ClickEnv)
| OpListAll (t : Z)
| OpDelete (key : string)
| OpClear.

Definition step (st : UrlService) (op : Op) : UrlService :=
  match op with
  | OpCreate request env => snd (createShortenedUrl st request env)
  | OpLookup code t => snd (getUrlByShortCode st code t)
  | OpRecord code src env => snd (recordClickAndRedirect st code src env)
  | OpListAll t => snd (getAllUrls st t)
  | OpDelete key => snd (deleteUrl st key)
  | OpClear => clearAllData st
  end.

Definition run (st : UrlService) (ops : list Op) : UrlService :=
  fold_left step ops st.


Definition is_record (op : Op) : bool :=
  match op with OpRecord _ _ _ => true | _ => false end.

(** Operations during which no creation falls back on the unchecked draw. *)
Fixpoint no_fallback (st : UrlService) (ops : list Op) : bool :=
  match ops with
  | [] => true
  | op :: rest =>
      match op with
      | OpCreate request env => negb (used_fallback (urls st) request env)
      | _ => true
      end
      && no_fallback (step st op) rest
  end.

(** The stored mapping that [find] meets first among those holding [code]. *)
Definition holder (m : JsMap.t) (code : string) : option ShortenedUrl :=
  find (code_matches code) (JsMap.values m).

(** The click sequences of the registry, entry by entry. *)
Definition click_table (m : JsMap.t) : list (string * list ClickData) :=
  map (fun e => (fst e, clicks (snd e))) m.







End Service.

(** ** More vocabulary: what a stored entry keeps *)

(** The fields that no method of the service writes after creation. *)
Definition fixed_fields (u : ShortenedUrl)
  : string * string * string * option string * Z * Z :=
  (id u, originalUrl u, shortCode u, customCode u, createdAt u, expiresAt u).

(** Every entry sits under the [id] of its mapping. *)
Definition filed_by_id (m : JsMap.t) : Prop :=
  Forall (fun e => fst e = id (snd e)) m.


(** Every random index of the creations in [ops] falls inside the
    alphabet, as [Math.floor(Math.random() * 62)] does. *)
Fixpoint randoms_in_range (ops : list Op) : Prop :=
  match ops with
  | [] => True
  | OpCreate _ env :: rest =>
      (forall i, randoms env i < 62) /\ randoms_in_range rest
  | _ :: rest => randoms_in_range rest
  end.

(** ** The logger of [services/logger.ts]

    The store [this.logs] is modelled; the line that [log] also prints on
    the console is not part of it. *)

Module Logger.

Inductive LogLevel : Type := INFO | WARN | ERROR | DEBUG.

Section Entries.

(** The type of [data?: any]. *)
Variable Data : Type.

Record LogEntry : Type := mkEntry {
  timestamp : Z;
  level     : LogLevel;
  message   : string;
  data      : option Data;
  source    : option string
}.

Definition maxLogs : nat := 1000.

(** [log], as the store it leaves: [unshift], then [slice(0, maxLogs)] when
    the store has grown past [maxLogs]. *)
Definition log (logs : list LogEntry) (now : Z) (lvl : LogLevel)
           (msg : string) (d : option Data) (src : option string)
  : list LogEntry :=
  let entry := mkEntry now lvl msg d src in
  let logs' := entry :: logs in
  if maxLogs <? List.length logs' then firstn maxLogs logs' else logs'.

Definition info logs now msg d src := log logs now INFO msg d src.

Definition warn logs now msg d src := log logs now WARN msg d src.

Definition error logs now msg d src := log logs now ERROR msg d src.

Definition debug logs now msg d src := log logs now DEBUG msg d src.

(** [getLogs] returns a copy of the store. *)
Definition getLogs (logs : list LogEntry) : list LogEntry := logs.

Definition clearLogs (logs : list LogEntry) : list LogEntry := [].

(** A call of [log] with the fields of [e], and a sequence of such calls. *)
Definition log_entry (logs : list LogEntry) (e : LogEntry) : list LogEntry :=
  log logs (timestamp e) (level e) (message e) (data e) (source e).

Definition log_entries (logs : list LogEntry) (es : list LogEntry)
  : list LogEntry :=
  fold_left log_entry es logs.

End Entries.

End Logger.

(** ** The form of the [UrlShortener] component

    The component's calls to the service and the values it computes are
    modelled; its React state for errors, spinners and toasts is not. *)

Record UrlFormData : Type := mkForm {
  form_originalUrl     : string;
  form_validityMinutes : string;
  form_customShortCode : string
}.

Record UrlValidationError : Type := mkError {
  error_field   : string;
  error_message : string
}.

Definition blank_form : UrlFormData := mkForm "" "30" "".

(** [addForm]: at most five forms. *)
Definition addForm (forms : list UrlFormData) : list UrlFormData :=
  if List.length forms <? 5 then forms ++ [blank_form] else forms.

(** [l.filter((_, i) => i !== index)] *)
Fixpoint remove_index {A : Type} (index : nat) (l : list A) : list A :=
  match l with
  | [] => []
  | x :: r =>
      match index with
      | O => r
      | S index' => x :: remove_index index' r
      end
  end.

(** [removeForm]: at least one form stays. *)
Definition removeForm (index : nat) (forms : list UrlFormData)
  : list UrlFormData :=
  if 1 <? List.length forms then remove_index index forms else forms.

Inductive FormAction : Type :=
| AddForm
| RemoveForm (index : nat).

Definition form_step (forms : list UrlFormData) (a : FormAction)
  : list UrlFormData :=
  match a with
  | AddForm => addForm forms
  | RemoveForm index => removeForm index forms
  end.

Inductive SubmitOutcome : Type :=
| Rejected (errors : list UrlValidationError)
| Shortened (result : ShortenedUrl)
| Failed (errorMessage : string)
| Unfinished.

Section Form.

(** The platform: [new URL(s)] returns, [s.trim()], and [parseInt(s)] with
    [None] for [NaN]. *)
Variable isValidUrl : string -> bool.
Variable trim : string -> string.
Variable parseInt : string -> option Z.

Definition validate_url (formData : UrlFormData) : list UrlValidationError :=
  if String.eqb (trim (form_originalUrl formData)) "" then
    [mkError "originalUrl" "URL is required"]
  else if isValidUrl (form_originalUrl formData) then []
  else [mkError "originalUrl"
          "Please enter a valid URL (include http:// or https://)"].

Definition validate_minutes (formData : UrlFormData)
  : list UrlValidationError :=
  if String.eqb (form_validityMinutes formData) "" then []
  else
    match parseInt (form_validityMinutes formData) with
    | Some minutes =>
        if (minutes <? 1)%Z || (525600 <? minutes)%Z then
          [mkError "validityMinutes"
             "Validity must be a number between 1 and 525600 minutes"]
        else []
    | None =>
        [mkError "validityMinutes"
           "Validity must be a number between 1 and 525600 minutes"]
    end.

Definition validate_code (formData : UrlFormData) : list UrlValidationError :=
  if String.eqb (form_customShortCode formData) "" then []
  else if isValidShortCode (form_customShortCode formData) then []
  else [mkError "customShortCode"
          "Short code must be alphanumeric (1-20 characters)"].

(** [validateForm]: the three checks push their errors in this order. *)
Definition validateForm (formData : UrlFormData) : list UrlValidationError :=
  validate_url formData ++ validate_minutes formData ++ validate_code formData.

(** The request that [submitForm] builds.  A [NaN] from [parseInt] is
    carried as an absent duration, which [NaN || 30] makes it. *)
Definition form_request (formData : UrlFormData) : CreateUrlRequest :=
  mkRequest (form_originalUrl formData)
            (if String.eqb (form_validityMinutes formData) "" then None
             else parseInt (form_validityMinutes formData))
            (truthy_string (Some (form_customShortCode formData))).

(** [submitForm]: validation, then the call of the service inside [try]. *)
Definition submitForm (st : UrlService) (formData : UrlFormData)
           (env : CreateEnv) : SubmitOutcome * UrlService :=
  match validateForm formData with
  | [] =>
      match createShortenedUrl isValidUrl st (form_request formData) env with
      | (Created result, st') => (Shortened result, st')
      | (Thrown errorMessage, st') => (Failed errorMessage, st')
      | (OutOfFuel, st') => (Unfinished, st')
      end
  | validationErrors => (Rejected validationErrors, st)
  end.

End Form.

(** ** [getTimeUntilExpiry] of the two components *)

Inductive Remaining : Type :=
| RExpired
| RMinutes (m : Z)
| RHours (h m : Z)
| RDays (d h : Z).

(** The case analysis of [getTimeUntilExpiry]; [Math.floor] of a quotient
    is [Z.div], [%] is [Z.rem]. *)
Definition remaining (now expires : Z) : Remaining :=
  let diffMs := (expires - now)%Z in
  let diffMins := (diffMs / (1000 * 60))%Z in
  if (diffMins <=? 0)%Z then RExpired
  else if (diffMins <? 60)%Z then RMinutes diffMins
  else if (diffMins <? 1440)%Z then
    RHours (diffMins / 60)%Z (Z.rem diffMins 60)
  else RDays (diffMins / 1440)%Z (Z.rem diffMins 1440 / 60)%Z.

(** An integer inside a template literal (decimal digits, as JavaScript
    prints the integers below 10^21). *)
Definition show (z : Z) : string :=
  DecimalString.NilZero.string_of_int (Z.to_int z).

Definition render (suffix : string) (r : Remaining) : string :=
  match r with
  | RExpired => "Expired"
  | RMinutes m => String.append (show m) (String.append "m" suffix)
  | RHours h m =>
      String.append (show h)
        (String.append "h "
           (String.append (show m) (String.append "m" suffix)))
  | RDays d h =>
      String.append (show d)
        (String.append "d "
           (String.append (show h) (String.append "h" suffix)))
  end.

(** [getTimeUntilExpiry] of [UrlShortener] and of [UrlStatistics]. *)
Definition getTimeUntilExpiry (now expires : Z) : string :=
  render "" (remaining now expires).

Definition getTimeUntilExpiry_statistics (now expires : Z) : string :=
  render " remaining" (remaining now expires).

(** ** The effect of [RedirectHandler] *)

Inductive RedirectStatus : Type :=
| StatusNotFound
| StatusExpired
| StatusRedirecting (target : string).

(** The body of the effect: [code] is the route parameter, [env] the
    environment of [recordClickAndRedirect], [t] the instant at which
    [getAllUrls] runs when the redirection failed. *)
Definition redirect (st : UrlService) (code : option string)
           (env : ClickEnv) (t : Z) : RedirectStatus * UrlService :=
  match truthy_string code with
  | None => (StatusNotFound, st)
  | Some shortCode =>
      let '(redirectUrl, st1) :=
        recordClickAndRedirect st shortCode (Some "direct") env in
      match truthy_string redirectUrl with
      | Some target => (StatusRedirecting target, st1)
      | None =>
          let '(allUrls, st2) := getAllUrls st1 t in
          match find (code_matches shortCode) allUrls with
          | Some existingUrl =>
              if isExpired existingUrl then (StatusExpired, st2)
              else (StatusNotFound, st2)
          | None => (StatusNotFound, st2)
          end
      end
  end.

(** ** Data of the worked examples *)

(** A stand-in for the platform's URL parser on the examples: it accepts an
    [https] URL that goes on after the scheme, and so agrees with
    [new URL] on the two strings the examples use. *)
Definition https_only (url : string) : bool :=
  String.prefix "https://" url && (8 <? String.length url).

Definition example_url : string := "https://example.com/a".

Definition example_time : Z := 1700000000000%Z.

(** An environment whose [Math.random] is stuck at 0: every draw is made of
    the first character of the alphabet. *)
Definition stuck_env (t : Z) (key : string) : CreateEnv :=
  mkCreateEnv t key (fun _ => 0).

(** An environment in which the [i]-th six-character draw repeats the
    [i]-th character of the alphabet. *)
Definition stepping_env (t : Z) (key : string) : CreateEnv :=
  mkCreateEnv t key (fun k => k / 6).

Definition click_env (t : Z) (key : string) : ClickEnv :=
  mkClickEnv t key t (Some "Mozilla/5.0").

Definition example_request (minutes : option Z) (custom : option string)
  : CreateUrlRequest :=
  mkRequest example_url minutes custom.

(** The registry after the creation of the custom code [promo1], valid for
    one minute from [example_time]. *)
Definition promo_mapping : ShortenedUrl :=
  mkUrl "1700000000000k3x9q2m1a" example_url "promo1" (Some "promo1")
        example_time (example_time + 60000)%Z false [] 0.

Definition promo_registry : UrlService :=
  snd (createShortenedUrl https_only (loadFromStorage None)
         (example_request (Some 1%Z) (Some "promo1"))
         (stuck_env example_time "1700000000000k3x9q2m1a")).

(** The registry after the creation of the custom codes [AAAAAA] and
    [AAAAAAAA]. *)
Definition crowded_registry : UrlService :=
  run https_only (loadFromStorage None)
      [OpCreate (example_request None (Some "AAAAAA"))
                (stuck_env example_time "1700000000000a");
       OpCreate (example_request None (Some "AAAAAAAA"))
                (stuck_env (example_time + 1) "1700000000001b")].

(** Stand-ins for [trim] and [parseInt] on the examples: the strings used
    have no white space around them, and the numbers typed are plain
    decimal digits. *)
Definition trim_nothing (s : string) : string := s.

Definition parse_digits (s : string) : option Z :=
  if String.eqb s "" then None
  else option_map Z.of_uint (DecimalString.NilEmpty.uint_of_string s).

(** A form asking for [promo2], valid for five minutes. *)
Definition promo2_form : UrlFormData := mkForm example_url "5" "promo2".

(** The identifier under which [promo_registry] files [promo1]. *)
Definition promo_key : string := "1700000000000k3x9q2m1a".

(** * Properties *)

(** ** The alphabet and the drawn codes *)

Lemma characters_length : String.length characters = 62.
Proof. reflexivity. Qed.

Lemma characters_NoDup : NoDup (list_ascii_of_string characters).
Proof.
  unfold characters; cbn [list_ascii_of_string].
  repeat (constructor; [cbn [In]; intuition discriminate |]).
  constructor.
Qed.

Lemma characters_alnum (c : ascii) :
  isAlnum c = true <-> In c (list_ascii_of_string characters).
Proof.
  split.
  - destruct c as [[] [] [] [] [] [] [] []]; vm_compute; intro H;
      first [discriminate H | tauto].
  - intro H; unfold characters in H; cbn [list_ascii_of_string In] in H.
    repeat (destruct H as [<- | H]; [reflexivity |]); contradiction.
Qed.

Lemma charAt_characters (i : nat) :
  i < 62 ->
  exists c, charAt characters i = String c EmptyString
            /\ String.get i characters = Some c /\ isAlnum c = true.
Proof.
  intro H.
  assert (Hall : forallb (fun j => match String.get j characters with
                                   | Some c => isAlnum c
                                   | None => false
                                   end) (seq 0 62) = true)
    by (vm_compute; reflexivity).
  rewrite forallb_forall in Hall.
  specialize (Hall i ltac:(apply in_seq; lia)).
  unfold charAt. destruct (String.get i characters) as [c |];
    [eauto | discriminate].
Qed.

Lemma append_length (s1 s2 : string) :
  String.length (String.append s1 s2) = String.length s1 + String.length s2.
Proof. induction s1; simpl; congruence. Qed.

Lemma list_ascii_append (s1 s2 : string) :
  list_ascii_of_string (String.append s1 s2)
  = list_ascii_of_string s1 ++ list_ascii_of_string s2.
Proof. induction s1; simpl; congruence. Qed.

Lemma generateShortCode_loop_cursor (rnd : Random) (n k : nat) (acc : string) :
  snd (generateShortCode_loop rnd n k acc) = k + n.
Proof.
  revert k acc; induction n as [| n IH]; intros k acc; simpl.
  - lia.
  - rewrite IH; lia.
Qed.

Lemma generateShortCode_loop_shape (rnd : Random) (n k : nat) (acc : string) :
  (forall i, rnd i < 62) ->
  let code := fst (generateShortCode_loop rnd n k acc) in
  String.length code = String.length acc + n
  /\ (forallb isAlnum (list_ascii_of_string acc) = true ->
      forallb isAlnum (list_ascii_of_string code) = true).
Proof.
  intro Hrnd; revert k acc; induction n as [| n IH]; intros k acc; simpl.
  - split; [lia | tauto].
  - destruct (charAt_characters (rnd k) (Hrnd k)) as (c & Hc & _ & Hal).
    specialize (IH (S k) (String.append acc (charAt characters (rnd k)))).
    simpl in IH; destruct IH as [Hlen Hall]; split.
    + rewrite Hlen, append_length, Hc; simpl; lia.
    + intro Hacc; apply Hall.
      rewrite list_ascii_append, forallb_app, Hacc, Hc; simpl.
      now rewrite Hal.
Qed.

Lemma generateShortCode_cursor (rnd : Random) (n k : nat) :
  snd (generateShortCode rnd n k) = k + n.
Proof. apply generateShortCode_loop_cursor. Qed.

Lemma generateShortCode_shape (rnd : Random) (n k : nat) :
  (forall i, rnd i < 62) ->
  String.length (fst (generateShortCode rnd n k)) = n
  /\ forallb isAlnum (list_ascii_of_string (fst (generateShortCode rnd n k)))
     = true.
Proof.
  intro Hrnd.
  destruct (generateShortCode_loop_shape rnd n k "" Hrnd) as [Hlen Hall].
  split; [exact Hlen | now apply Hall].
Qed.

Lemma generateShortCode_draw6 (rnd : Random) (a : nat) :
  generateShortCode rnd 6 (6 * a) = (draw6 rnd a, 6 * S a).
Proof.
  unfold draw6.
  rewrite (surjective_pairing (generateShortCode rnd 6 (6 * a))) at 1.
  f_equal. rewrite generateShortCode_cursor; lia.
Qed.

Lemma generateUnique_loop_step (m : JsMap.t) (rnd : Random) (fuel a : nat) :
  generateUnique_loop m rnd (S fuel) a (6 * a)
  = if maxAttempts <? S a then Some (generateShortCode rnd 8 (6 * S a))
    else if isShortCodeTaken m (draw6 rnd a)
         then generateUnique_loop m rnd fuel (S a) (6 * S a)
         else Some (draw6 rnd a, 6 * S a).
Proof.
  cbn [generateUnique_loop]. now rewrite generateShortCode_draw6.
Qed.

Lemma generateUnique_loop_first_free (m : JsMap.t) (rnd : Random) :
  forall j a fuel,
    a + j < maxAttempts -> j < fuel ->
    (forall i, i < j -> isShortCodeTaken m (draw6 rnd (a + i)) = true) ->
    isShortCodeTaken m (draw6 rnd (a + j)) = false ->
    generateUnique_loop m rnd fuel a (6 * a)
    = Some (draw6 rnd (a + j), 6 * S (a + j)).
Proof.
  induction j as [| j IH]; intros a fuel Ha Hfuel Hbefore Hfree;
    (destruct fuel as [| fuel]; [lia |]);
    rewrite generateUnique_loop_step;
    (replace (maxAttempts <? S a) with false
      by (symmetry; apply Nat.ltb_ge; lia)).
  - rewrite Nat.add_0_r in Hfree |- *. now rewrite Hfree.
  - pose proof (Hbefore 0 ltac:(lia)) as H0. rewrite Nat.add_0_r in H0.
    rewrite H0.
    replace (a + S j) with (S a + j) in * by lia.
    apply IH; try lia; trivial.
    intros i Hi. specialize (Hbefore (S i) ltac:(lia)).
    now replace (a + S i) with (S a + i) in Hbefore by lia.
Qed.

Lemma generateUnique_loop_all_taken (m : JsMap.t) (rnd : Random) :
  forall n a fuel,
    a + n = maxAttempts -> n < fuel ->
    (forall i, i < n -> isShortCodeTaken m (draw6 rnd (a + i)) = true) ->
    generateUnique_loop m rnd fuel a (6 * a)
    = Some (generateShortCode rnd 8 (6 * S maxAttempts)).
Proof.
  induction n as [| n IH]; intros a fuel Ha Hfuel Htaken;
    (destruct fuel as [| fuel]; [lia |]);
    rewrite generateUnique_loop_step.
  - replace (maxAttempts <? S a) with true
      by (symmetry; apply Nat.ltb_lt; lia).
    now replace a with maxAttempts by lia.
  - replace (maxAttempts <? S a) with false
      by (symmetry; apply Nat.ltb_ge; lia).
    pose proof (Htaken 0 ltac:(lia)) as H0. rewrite Nat.add_0_r in H0.
    rewrite H0. apply IH; try lia.
    intros i Hi. specialize (Htaken (S i) ltac:(lia)).
    now replace (a + S i) with (S a + i) in Htaken by lia.
Qed.

Lemma generateUnique_loop_total (m : JsMap.t) (rnd : Random) :
  forall fuel a k,
    maxAttempts < S fuel + a ->
    exists r, generateUnique_loop m rnd (S fuel) a k = Some r.
Proof.
  induction fuel as [| fuel IH]; intros a k H;
    cbn [generateUnique_loop];
    destruct (generateShortCode rnd 6 k) as [code k1];
    destruct (maxAttempts <? S a) eqn:Hmax; eauto.
  - apply Nat.ltb_ge in Hmax; lia.
  - destruct (isShortCodeTaken m code); eauto.
    apply IH. apply Nat.ltb_ge in Hmax; lia.
Qed.

(** The loop of [generateUniqueShortCode] ends within its 101 rounds. *)
Lemma generateUniqueShortCode_returns (m : JsMap.t) (rnd : Random) :
  exists code, generateUniqueShortCode m rnd = Some code.
Proof.
  unfold generateUniqueShortCode.
  destruct (generateUnique_loop_total m rnd maxAttempts 0 0) as [r Hr].
  - unfold maxAttempts; lia.
  - rewrite Hr; simpl; eauto.
Qed.

Lemma append_empty_r (s : string) : String.append s "" = s.
Proof. induction s; simpl; congruence. Qed.

Lemma append_assoc (s1 s2 s3 : string) :
  String.append (String.append s1 s2) s3
  = String.append s1 (String.append s2 s3).
Proof. induction s1; simpl; congruence. Qed.

Lemma generateShortCode_loop_chars (rnd : Random) (n k : nat) (acc : string) :
  fst (generateShortCode_loop rnd n k acc)
  = String.append acc (join (drawn_chars rnd k n)).
Proof.
  revert k acc; induction n as [| n IH]; intros k acc; simpl.
  - now rewrite append_empty_r.
  - now rewrite IH, append_assoc.
Qed.

Lemma generateUniqueShortCode_first_free (m : JsMap.t) (rnd : Random)
      (j : nat) :
  j < maxAttempts ->
  (forall i, i < j -> isShortCodeTaken m (draw6 rnd i) = true) ->
  isShortCodeTaken m (draw6 rnd j) = false ->
  generateUniqueShortCode m rnd = Some (draw6 rnd j).
Proof.
  intros Hj Hbefore Hfree. unfold generateUniqueShortCode.
  change 0 with (6 * 0) at 2.
  rewrite (generateUnique_loop_first_free m rnd j 0); simpl; trivial.
  unfold maxAttempts in *; lia.
Qed.

Lemma generateUniqueShortCode_fallback (m : JsMap.t) (rnd : Random) :
  (forall i, i < maxAttempts -> isShortCodeTaken m (draw6 rnd i) = true) ->
  generateUniqueShortCode m rnd = Some (fallback8 rnd).
Proof.
  intro Htaken. unfold generateUniqueShortCode.
  change 0 with (6 * 0) at 2.
  rewrite (generateUnique_loop_all_taken m rnd maxAttempts 0); simpl; trivial.
  unfold maxAttempts; lia.
Qed.

(** C3.  Auto-generation draws six-character codes, each character being
    [characters] at the next random index (an alphabet of 62 distinct
    characters, exactly the alphanumeric ones); it returns the first of the
    first 100 draws that no stored mapping holds; when all 100 are held it
    returns one eight-character draw, whether or not that one is held. *)
Theorem generateUniqueShortCode_policy (m : JsMap.t) (rnd : Random) :
  (forall j, j < 100 ->
     (forall i, i < j -> isShortCodeTaken m (draw6 rnd i) = true) ->
     isShortCodeTaken m (draw6 rnd j) = false ->
     generateUniqueShortCode m rnd = Some (draw6 rnd j))
  /\ ((forall i, i < 100 -> isShortCodeTaken m (draw6 rnd i) = true) ->
      generateUniqueShortCode m rnd = Some (fallback8 rnd))
  /\ (forall j, draw6 rnd j = join (drawn_chars rnd (6 * j) 6))
  /\ fallback8 rnd = join (drawn_chars rnd (6 * 101) 8)
  /\ ((forall i, rnd i < 62) ->
      (forall j, String.length (draw6 rnd j) = 6
                 /\ isValidShortCode (draw6 rnd j) = true)
      /\ String.length (fallback8 rnd) = 8
      /\ isValidShortCode (fallback8 rnd) = true)
  /\ String.length characters = 62
  /\ NoDup (list_ascii_of_string characters)
  /\ (forall c, isAlnum c = true <-> In c (list_ascii_of_string characters)).
Proof.
  split; [| split; [| split; [| split; [| split; [| split; [| split]]]]]].
  - apply generateUniqueShortCode_first_free.
  - apply generateUniqueShortCode_fallback.
  - intro j. unfold draw6, generateShortCode.
    now rewrite generateShortCode_loop_chars.
  - unfold fallback8, generateShortCode.
    now rewrite generateShortCode_loop_chars.
  - intro Hrnd. split; [intro j | ].
    + destruct (generateShortCode_shape rnd 6 (6 * j) Hrnd) as [Hlen Hall].
      fold (draw6 rnd j) in Hlen, Hall.
      split; [exact Hlen |].
      unfold isValidShortCode. now rewrite Hlen, Hall.
    + destruct (generateShortCode_shape rnd 8 (6 * S maxAttempts) Hrnd)
        as [Hlen Hall].
      fold (fallback8 rnd) in Hlen, Hall.
      split; [exact Hlen |].
      unfold isValidShortCode. now rewrite Hlen, Hall.
  - exact characters_length.
  - exact characters_NoDup.
  - exact characters_alnum.
Qed.

(** On an empty registry, with [Math.random] stuck at 0, the first draw is
    free and is returned. *)
Lemma generateUniqueShortCode_policy_witness :
  generateUniqueShortCode JsMap.empty (fun _ => 0) = Some "AAAAAA".
Proof.
  apply (proj1 (generateUniqueShortCode_policy JsMap.empty (fun _ => 0)) 0).
  - lia.
  - intros i Hi; lia.
  - reflexivity.
Defined.

(** ** Codes held by the stored mappings *)

Lemma isShortCodeTaken_In (m : JsMap.t) (code : string) :
  isShortCodeTaken m code = true <-> In code (codes m).
Proof.
  unfold isShortCodeTaken, codes, code_matches.
  rewrite existsb_exists, in_map_iff. split.
  - intros (u & Hin & Heq). apply String.eqb_eq in Heq. eauto.
  - intros (u & Heq & Hin). exists u. split; trivial.
    now apply String.eqb_eq.
Qed.

Lemma isShortCodeTaken_not_In (m : JsMap.t) (code : string) :
  isShortCodeTaken m code = false <-> ~ In code (codes m).
Proof.
  rewrite <- isShortCodeTaken_In.
  destruct (isShortCodeTaken m code); split; congruence.
Qed.

Lemma codes_update_first (p : ShortenedUrl -> bool)
      (f : ShortenedUrl -> ShortenedUrl) (m : JsMap.t) :
  (forall u, shortCode (f u) = shortCode u) ->
  codes (JsMap.update_first p f m) = codes m.
Proof.
  intro Hf. unfold codes, JsMap.values.
  induction m as [| [k v] r IH]; simpl; trivial.
  destruct (p v); simpl; [now rewrite Hf | now rewrite IH].
Qed.

Lemma codes_update_all (f : ShortenedUrl -> ShortenedUrl) (m : JsMap.t) :
  (forall u, shortCode (f u) = shortCode u) ->
  codes (JsMap.update_all f m) = codes m.
Proof.
  intro Hf. unfold codes, JsMap.values, JsMap.update_all.
  rewrite !map_map. apply map_ext. intros [k v]; simpl. apply Hf.
Qed.

Lemma codes_delete_incl (k : string) (m : JsMap.t) (c : string) :
  In c (codes (JsMap.delete k m)) -> In c (codes m).
Proof.
  unfold codes, JsMap.values.
  induction m as [| [k' v] r IH]; simpl; trivial.
  destruct (String.eqb k' k); simpl; tauto.
Qed.

Lemma codes_delete_NoDup (k : string) (m : JsMap.t) :
  NoDup (codes m) -> NoDup (codes (JsMap.delete k m)).
Proof.
  induction m as [| [k' v] r IH]; simpl; trivial.
  intro H. change (NoDup (shortCode v :: codes r)) in H.
  inversion H as [| ? ? Hnotin Hr]; subst.
  destruct (String.eqb k' k); trivial.
  change (NoDup (shortCode v :: codes (JsMap.delete k r))).
  constructor; [| now apply IH].
  intro Hin. apply Hnotin. eapply codes_delete_incl; eauto.
Qed.

Lemma codes_set_In (k : string) (v : ShortenedUrl) (m : JsMap.t) (c : string) :
  In c (codes (JsMap.set k v m)) -> c = shortCode v \/ In c (codes m).
Proof.
  unfold codes, JsMap.values.
  induction m as [| [k' v'] r IH]; simpl.
  - intuition congruence.
  - destruct (String.eqb k' k); simpl; intuition congruence.
Qed.

Lemma codes_set_NoDup (k : string) (v : ShortenedUrl) (m : JsMap.t) :
  ~ In (shortCode v) (codes m) ->
  NoDup (codes m) -> NoDup (codes (JsMap.set k v m)).
Proof.
  induction m as [| [k' v'] r IH]; simpl; intros Hfresh Hnd.
  - repeat constructor. intros [].
  - change (NoDup (shortCode v' :: codes r)) in Hnd.
    change (~ In (shortCode v) (shortCode v' :: codes r)) in Hfresh.
    inversion Hnd as [| ? ? Hnotin Hr]; subst.
    destruct (String.eqb k' k).
    + change (NoDup (shortCode v :: codes r)).
      constructor; trivial. intro Hin. apply Hfresh. now right.
    + change (NoDup (shortCode v' :: codes (JsMap.set k v r))).
      constructor.
      * intro Hin. apply codes_set_In in Hin. destruct Hin as [Heq | Hin].
        -- apply Hfresh. left. congruence.
        -- contradiction.
      * apply IH; trivial. intro Hin. apply Hfresh. now right.
Qed.

Lemma set_isExpired_shortCode (b : bool) (u : ShortenedUrl) :
  shortCode (set_isExpired b u) = shortCode u.
Proof. reflexivity. Qed.

Lemma push_click_shortCode (c : ClickData) (u : ShortenedUrl) :
  shortCode (push_click c u) = shortCode u.
Proof. reflexivity. Qed.

(** ** Which draw [generateUniqueShortCode] returns *)

Lemma all_draws_taken_true (m : JsMap.t) (rnd : Random) :
  all_draws_taken m rnd = true <->
  (forall i, i < maxAttempts -> isShortCodeTaken m (draw6 rnd i) = true).
Proof.
  unfold all_draws_taken. rewrite forallb_forall. split.
  - intros H i Hi. apply H. apply in_seq. lia.
  - intros H i Hi. apply H. apply in_seq in Hi. lia.
Qed.

Lemma first_free_draw (m : JsMap.t) (rnd : Random) (n : nat) :
  (exists j, j < n
             /\ (forall i, i < j -> isShortCodeTaken m (draw6 rnd i) = true)
             /\ isShortCodeTaken m (draw6 rnd j) = false)
  \/ (forall i, i < n -> isShortCodeTaken m (draw6 rnd i) = true).
Proof.
  induction n as [| n [(j & Hj & Hb & Hf) | Hall]].
  - right. intros i Hi. lia.
  - left. exists j. repeat split; trivial. lia.
  - destruct (isShortCodeTaken m (draw6 rnd n)) eqn:Hn.
    + right. intros i Hi.
      destruct (Nat.eq_dec i n) as [-> | Hne]; trivial. apply Hall. lia.
    + left. exists n. repeat split; trivial. lia.
Qed.

Lemma generateUniqueShortCode_cases (m : JsMap.t) (rnd : Random)
      (code : string) :
  generateUniqueShortCode m rnd = Some code ->
  (all_draws_taken m rnd = false /\ isShortCodeTaken m code = false
   /\ exists j, j < maxAttempts /\ code = draw6 rnd j)
  \/ (all_draws_taken m rnd = true /\ code = fallback8 rnd).
Proof.
  intro Hgen.
  destruct (first_free_draw m rnd maxAttempts) as [(j & Hj & Hb & Hf) | Hall].
  - left. rewrite (generateUniqueShortCode_first_free m rnd j Hj Hb Hf) in Hgen.
    injection Hgen as <-. repeat split; eauto.
    destruct (all_draws_taken m rnd) eqn:Hall; trivial.
    rewrite all_draws_taken_true in Hall. rewrite (Hall j Hj) in Hf.
    discriminate.
  - right. rewrite (generateUniqueShortCode_fallback m rnd Hall) in Hgen.
    injection Hgen as <-. split; trivial. now apply all_draws_taken_true.
Qed.

(** ** Creation *)

Section Creation.

Variable isValidUrl : string -> bool.

Lemma create_created_inv st request env u st' :
  createShortenedUrl isValidUrl st request env = (Created u, st') ->
  isValidUrl (req_originalUrl request) = true
  /\ u = new_mapping request env (shortCode u)
  /\ urls st' = JsMap.set (fresh env) u (urls st)
  /\ storage st' = Some (urls st')
  /\ match truthy_string (customShortCode request) with
     | Some custom =>
         shortCode u = custom /\ isValidShortCode custom = true
         /\ isShortCodeTaken (urls st) custom = false
     | None =>
         generateUniqueShortCode (urls st) (randoms env) = Some (shortCode u)
     end.
Proof.
  unfold createShortenedUrl, InvalidUrl, InvalidShortCode, ShortCodeTaken.
  destruct (isValidUrl (req_originalUrl request)); simpl; [| discriminate].
  destruct (truthy_string (customShortCode request)) as [custom |].
  - destruct (isValidShortCode custom); simpl; [| discriminate].
    destruct (isShortCodeTaken (urls st) custom); simpl; [discriminate |].
    intro H; injection H as <- <-; simpl. repeat split; reflexivity.
  - destruct (generateUniqueShortCode (urls st) (randoms env)) as [code |];
      [| discriminate].
    intro H; injection H as <- <-; simpl. repeat split; reflexivity.
Qed.

Lemma create_failed_state st request env message :
  fst (createShortenedUrl isValidUrl st request env) = Thrown message ->
  snd (createShortenedUrl isValidUrl st request env) = st.
Proof.
  unfold createShortenedUrl.
  destruct (isValidUrl (req_originalUrl request)); simpl; trivial.
  destruct (truthy_string (customShortCode request)) as [custom |].
  - destruct (isValidShortCode custom); simpl; trivial.
    destruct (isShortCodeTaken (urls st) custom); simpl; trivial.
    discriminate.
  - destruct (generateUniqueShortCode (urls st) (randoms env)); simpl;
      trivial. discriminate.
Qed.

(** Creation always returns: the model loop never runs out of rounds. *)
Lemma create_returns st request env :
  fst (createShortenedUrl isValidUrl st request env) <> OutOfFuel.
Proof.
  unfold createShortenedUrl, InvalidUrl, InvalidShortCode, ShortCodeTaken.
  destruct (isValidUrl (req_originalUrl request)); simpl; [| discriminate].
  destruct (truthy_string (customShortCode request)) as [custom |].
  - destruct (isValidShortCode custom); simpl; [| discriminate].
    destruct (isShortCodeTaken (urls st) custom); simpl; discriminate.
  - destruct (generateUniqueShortCode_returns (urls st) (randoms env))
      as [code ->]. simpl; discriminate.
Qed.

Lemma create_cases st request env :
  (exists u, createShortenedUrl isValidUrl st request env
             = (Created u,
                saveToStorage
                  (mkService (JsMap.set (fresh env) u (urls st)) (storage st))))
  \/ (exists message,
         createShortenedUrl isValidUrl st request env = (Thrown message, st)).
Proof.
  unfold createShortenedUrl, InvalidUrl, InvalidShortCode, ShortCodeTaken.
  destruct (isValidUrl (req_originalUrl request)); simpl; eauto.
  destruct (truthy_string (customShortCode request)) as [custom |].
  - destruct (isValidShortCode custom); simpl; eauto.
    destruct (isShortCodeTaken (urls st) custom); simpl; eauto.
  - destruct (generateUniqueShortCode_returns (urls st) (randoms env))
      as [code ->]. simpl; eauto.
Qed.

Lemma create_code_not_held st request env u st' :
  createShortenedUrl isValidUrl st request env = (Created u, st') ->
  used_fallback (urls st) request env = false ->
  ~ In (shortCode u) (codes (urls st)).
Proof.
  intros Hc Hfb. apply create_created_inv in Hc.
  destruct Hc as (_ & _ & _ & _ & Hcode). unfold used_fallback in Hfb.
  destruct (truthy_string (customShortCode request)) as [custom |].
  - destruct Hcode as (-> & _ & Hfree). now apply isShortCodeTaken_not_In.
  - apply generateUniqueShortCode_cases in Hcode.
    destruct Hcode as [(_ & Hfree & _) | (Hall & _)]; [| congruence].
    now apply isShortCodeTaken_not_In.
Qed.

Lemma getUrlByShortCode_codes st code t :
  codes (urls (snd (getUrlByShortCode st code t))) = codes (urls st).
Proof.
  unfold getUrlByShortCode.
  destruct (find (code_matches code) (JsMap.values (urls st))) as [u |];
    trivial.
  destruct (Z.gtb t (expiresAt u)); simpl; trivial.
  apply codes_update_first, set_isExpired_shortCode.
Qed.

Lemma step_codes_NoDup st op :
  match op with
  | OpCreate request env => used_fallback (urls st) request env = false
  | _ => True
  end ->
  NoDup (codes (urls st)) -> NoDup (codes (urls (step isValidUrl st op))).
Proof.
  destruct op as [request env | code t | code src env | t | key |];
    simpl; intros Hfb Hnd.
  - destruct (createShortenedUrl isValidUrl st request env) as [r st'] eqn:Hc;
      simpl.
    destruct r as [u | message |].
    + pose proof (create_code_not_held _ _ _ _ _ Hc Hfb) as Hfresh.
      apply create_created_inv in Hc. destruct Hc as (_ & _ & -> & _).
      now apply codes_set_NoDup.
    + pose proof (create_failed_state st request env message) as Hs.
      rewrite Hc in Hs. simpl in Hs. now rewrite Hs.
    + pose proof (create_returns st request env) as Hr.
      rewrite Hc in Hr. now elim Hr.
  - now rewrite getUrlByShortCode_codes.
  - unfold recordClickAndRedirect.
    pose proof (getUrlByShortCode_codes st code (at_time env)) as Hg.
    destruct (getUrlByShortCode st code (at_time env)) as [[u |] st'];
      simpl in *.
    + rewrite codes_update_first by apply push_click_shortCode.
      now rewrite Hg.
    + now rewrite Hg.
  - rewrite codes_update_all; trivial.
    intro u. unfold refresh_expired. now destruct (Z.gtb t (expiresAt u)).
  - unfold deleteUrl. destruct (JsMap.has key (urls st)); simpl; trivial.
    now apply codes_delete_NoDup.
  - constructor.
Qed.

Lemma run_codes_NoDup ops : forall st,
  no_fallback isValidUrl st ops = true ->
  NoDup (codes (urls st)) -> NoDup (codes (urls (run isValidUrl st ops))).
Proof.
  induction ops as [| op rest IH]; intros st Hnf Hnd; simpl in *; trivial.
  apply andb_prop in Hnf. destruct Hnf as [Hop Hrest].
  apply IH; trivial. apply step_codes_NoDup; trivial.
  destruct op; trivial. now apply negb_true_iff in Hop.
Qed.

(** C1, as amended.  A successful creation that does not fall back on the
    eight-character draw returns a code that no stored mapping holds, live or
    expired; and along any sequence of operations without such a fallback,
    from a registry whose codes are pairwise distinct (the empty one
    included), the stored codes stay pairwise distinct. *)
Theorem create_code_unique_without_fallback :
  (forall st request env u st',
      createShortenedUrl isValidUrl st request env = (Created u, st') ->
      used_fallback (urls st) request env = false ->
      ~ In (shortCode u) (codes (urls st))
      /\ (NoDup (codes (urls st)) -> NoDup (codes (urls st'))))
  /\ (forall st ops,
         NoDup (codes (urls st)) ->
         no_fallback isValidUrl st ops = true ->
         NoDup (codes (urls (run isValidUrl st ops)))).
Proof.
  split.
  - intros st request env u st' Hc Hfb. split.
    + eapply create_code_not_held; eauto.
    + intro Hnd.
      pose proof (step_codes_NoDup st (OpCreate request env) Hfb Hnd) as H.
      simpl in H. now rewrite Hc in H.
  - intros st ops Hnd Hnf. now apply run_codes_NoDup.
Qed.

Lemma get_set_same (k : string) (v : ShortenedUrl) (m : JsMap.t) :
  JsMap.get k (JsMap.set k v m) = Some v.
Proof.
  induction m as [| [k' v'] r IH]; simpl.
  - now rewrite String.eqb_refl.
  - destruct (String.eqb k' k) eqn:Hk; simpl.
    + now rewrite String.eqb_refl.
    + now rewrite Hk.
Qed.





End Creation.

(** ** Lookup *)

Lemma holder_None (m : JsMap.t) (code : string) :
  holder m code = None <->
  (forall u, In u (JsMap.values m) -> shortCode u <> code).
Proof.
  unfold holder. split.
  - intros H u Hin Hcode.
    pose proof (find_none _ _ H u Hin) as Hno.
    unfold code_matches in Hno. rewrite Hcode, String.eqb_refl in Hno.
    discriminate.
  - intro H.
    destruct (find (code_matches code) (JsMap.values m)) as [u |] eqn:Hf;
      trivial.
    apply find_some in Hf. destruct Hf as [Hin Hcode].
    apply String.eqb_eq in Hcode. now elim (H u Hin).
Qed.

Lemma holder_Some (m : JsMap.t) (code : string) (u : ShortenedUrl) :
  holder m code = Some u -> In u (JsMap.values m) /\ shortCode u = code.
Proof.
  unfold holder. intro Hf. apply find_some in Hf.
  destruct Hf as [Hin Hcode]. apply String.eqb_eq in Hcode. tauto.
Qed.

Lemma holder_unique (m : JsMap.t) (code : string) (u : ShortenedUrl) :
  NoDup (codes m) -> In u (JsMap.values m) -> shortCode u = code ->
  holder m code = Some u.
Proof.
  unfold holder, codes, code_matches.
  induction (JsMap.values m) as [| v r IH]; simpl; intros Hnd Hin Hcode.
  - contradiction.
  - inversion Hnd as [| ? ? Hnotin Hr]; subst.
    destruct Hin as [-> | Hin].
    + now rewrite String.eqb_refl.
    + destruct (String.eqb_spec (shortCode v) (shortCode u)) as [Heq | Hne].
      * elim Hnotin. rewrite Heq. now apply in_map.
      * now apply IH.
Qed.

(** The write through the object found changes that entry and no other. *)
Lemma update_first_split (p : ShortenedUrl -> bool)
      (f : ShortenedUrl -> ShortenedUrl) (m : JsMap.t) (u : ShortenedUrl) :
  find p (JsMap.values m) = Some u ->
  exists l1 k l2,
    m = l1 ++ (k, u) :: l2
    /\ (forall e, In e l1 -> p (snd e) = false)
    /\ JsMap.update_first p f m = l1 ++ (k, f u) :: l2.
Proof.
  induction m as [| [k v] r IH]; simpl; [discriminate |].
  destruct (p v) eqn:Hp.
  - intro H; injection H as ->. exists [], k, r. simpl. tauto.
  - intro H. destruct (IH H) as (l1 & k' & l2 & -> & Hl1 & ->).
    exists ((k, v) :: l1), k', l2. simpl. repeat split; trivial.
    intros e [<- | Hin]; auto.
Qed.

Lemma holder_split (l1 l2 : JsMap.t) (k code : string) (u : ShortenedUrl) :
  (forall e, In e l1 -> code_matches code (snd e) = false) ->
  shortCode u = code ->
  holder (l1 ++ (k, u) :: l2) code = Some u.
Proof.
  unfold holder, JsMap.values. intros Hl1 Hcode.
  induction l1 as [| [k' v] l1 IH]; simpl.
  - unfold code_matches. now rewrite Hcode, String.eqb_refl.
  - pose proof (Hl1 (k', v) (or_introl eq_refl)) as Hv. simpl in Hv.
    rewrite Hv. apply IH. intros e Hin. apply Hl1. now right.
Qed.

(** C5.  [getUrlByShortCode] at the instant [t]: it returns nothing and
    changes nothing when no stored mapping holds the code; when the mapping
    holding it has [t > expiresAt], it returns nothing, raises the cached
    [isExpired] flag of that mapping, of no other, and saves; when
    [t <= expiresAt], the instant of expiry included, it returns that
    mapping and changes nothing.  Where codes are pairwise distinct the
    mapping holding a code is the only stored one with that code. *)
Theorem getUrlByShortCode_expiry (st : UrlService) (code : string) (t : Z) :
  ((forall u, In u (JsMap.values (urls st)) -> shortCode u <> code) ->
   getUrlByShortCode st code t = (None, st))
  /\ (forall u, holder (urls st) code = Some u ->
       In u (JsMap.values (urls st)) /\ shortCode u = code
       /\ ((t > expiresAt u)%Z ->
           exists l1 k l2 st',
             urls st = l1 ++ (k, u) :: l2
             /\ getUrlByShortCode st code t = (None, st')
             /\ urls st' = l1 ++ (k, set_isExpired true u) :: l2
             /\ holder (urls st') code = Some (set_isExpired true u)
             /\ isExpired (set_isExpired true u) = true
             /\ storage st' = Some (urls st'))
       /\ ((t <= expiresAt u)%Z ->
           getUrlByShortCode st code t = (Some u, st)))
  /\ (NoDup (codes (urls st)) ->
      forall u, In u (JsMap.values (urls st)) -> shortCode u = code ->
                holder (urls st) code = Some u).
Proof.
  split; [| split].
  - intro Hnone. apply holder_None in Hnone.
    unfold getUrlByShortCode. unfold holder in Hnone. now rewrite Hnone.
  - intros u Hu. destruct (holder_Some _ _ _ Hu) as [Hin Hcode].
    split; [exact Hin | split; [exact Hcode |]].
    unfold getUrlByShortCode. unfold holder in Hu. rewrite Hu. split.
    + intro Hgt.
      replace (Z.gtb t (expiresAt u)) with true
        by (symmetry; rewrite Z.gtb_ltb; apply Z.ltb_lt; lia).
      destruct (update_first_split (code_matches code) (set_isExpired true)
                                   _ _ Hu) as (l1 & k & l2 & Hm & Hl1 & Hup).
      exists l1, k, l2. eexists. split; [exact Hm |].
      split; [reflexivity |]. simpl. rewrite Hup.
      repeat split; trivial. now apply holder_split.
    + intro Hle.
      replace (Z.gtb t (expiresAt u)) with false; trivial.
      symmetry. rewrite Z.gtb_ltb. apply Z.ltb_ge. lia.
  - intros Hnd u Hin Hcode. now apply holder_unique.
Qed.

(** ** Clicks *)

Lemma update_first_at (p : ShortenedUrl -> bool)
      (f : ShortenedUrl -> ShortenedUrl) (l1 l2 : JsMap.t) (k : string)
      (u : ShortenedUrl) :
  (forall e, In e l1 -> p (snd e) = false) -> p u = true ->
  JsMap.update_first p f (l1 ++ (k, u) :: l2) = l1 ++ (k, f u) :: l2.
Proof.
  intros Hl1 Hu. induction l1 as [| [k' v] l1 IH]; simpl.
  - now rewrite Hu.
  - pose proof (Hl1 (k', v) (or_introl eq_refl)) as Hv. simpl in Hv.
    rewrite Hv, IH; trivial. intros e Hin. apply Hl1. now right.
Qed.

Lemma click_table_update_first (p : ShortenedUrl -> bool)
      (f : ShortenedUrl -> ShortenedUrl) (m : JsMap.t) :
  (forall u, clicks (f u) = clicks u) ->
  click_table (JsMap.update_first p f m) = click_table m.
Proof.
  intro Hf. unfold click_table.
  induction m as [| [k v] r IH]; simpl; trivial.
  destruct (p v); simpl; [now rewrite Hf | now rewrite IH].
Qed.

Lemma getUrlByShortCode_click_table st code t :
  click_table (urls (snd (getUrlByShortCode st code t)))
  = click_table (urls st).
Proof.
  unfold getUrlByShortCode.
  destruct (find (code_matches code) (JsMap.values (urls st))) as [u |];
    trivial.
  destruct (Z.gtb t (expiresAt u)); simpl; trivial.
  now apply click_table_update_first.
Qed.

Lemma getUrlByShortCode_live st code t u :
  holder (urls st) code = Some u -> (t <= expiresAt u)%Z ->
  getUrlByShortCode st code t = (Some u, st).
Proof.
  unfold holder, getUrlByShortCode. intros -> Hle.
  replace (Z.gtb t (expiresAt u)) with false; trivial.
  symmetry. rewrite Z.gtb_ltb. apply Z.ltb_ge. lia.
Qed.

Lemma getUrlByShortCode_not_live st code t :
  holder (urls st) code = None
  \/ (exists u, holder (urls st) code = Some u /\ (t > expiresAt u)%Z) ->
  fst (getUrlByShortCode st code t) = None.
Proof.
  unfold holder, getUrlByShortCode. intros [-> | (u & -> & Hgt)]; trivial.
  replace (Z.gtb t (expiresAt u)) with true; trivial.
  symmetry. rewrite Z.gtb_ltb. apply Z.ltb_lt. lia.
Qed.

Lemma recordClickAndRedirect_live st code src env l1 k u l2 :
  urls st = l1 ++ (k, u) :: l2 ->
  (forall e, In e l1 -> code_matches code (snd e) = false) ->
  shortCode u = code ->
  (at_time env <= expiresAt u)%Z ->
  recordClickAndRedirect st code src env
  = (Some (originalUrl u),
     saveToStorage
       (mkService (l1 ++ (k, push_click (click_of src env) u) :: l2)
                  (storage st))).
Proof.
  intros Hm Hl1 Hcode Hle.
  assert (Hh : holder (urls st) code = Some u)
    by (rewrite Hm; now apply holder_split).
  unfold recordClickAndRedirect.
  rewrite (getUrlByShortCode_live _ _ _ _ Hh Hle), Hm.
  rewrite update_first_at; trivial.
  unfold code_matches. rewrite Hcode. apply String.eqb_refl.
Qed.

Lemma values_update_first_In (p : ShortenedUrl -> bool)
      (f : ShortenedUrl -> ShortenedUrl) (m : JsMap.t) (v' : ShortenedUrl) :
  In v' (JsMap.values (JsMap.update_first p f m)) ->
  In v' (JsMap.values m) \/ exists v, In v (JsMap.values m) /\ v' = f v.
Proof.
  unfold JsMap.values. induction m as [| [k v] r IH]; simpl; [tauto |].
  destruct (p v); simpl.
  - intros [<- | Hin]; eauto.
  - intros [<- | Hin]; auto.
    destruct (IH Hin) as [H | (w & Hw & ->)]; eauto.
Qed.

Lemma values_update_all_In (f : ShortenedUrl -> ShortenedUrl) (m : JsMap.t)
      (v' : ShortenedUrl) :
  In v' (JsMap.values (JsMap.update_all f m)) ->
  exists v, In v (JsMap.values m) /\ v' = f v.
Proof.
  unfold JsMap.values, JsMap.update_all. rewrite map_map, in_map_iff.
  intros ([k v] & <- & Hin). exists v. split; trivial.
  apply in_map_iff. now exists (k, v).
Qed.

Lemma values_delete_In (k : string) (m : JsMap.t) (v : ShortenedUrl) :
  In v (JsMap.values (JsMap.delete k m)) -> In v (JsMap.values m).
Proof.
  unfold JsMap.values. induction m as [| [k' v'] r IH]; simpl; trivial.
  destruct (String.eqb k' k); simpl; tauto.
Qed.

Lemma values_set_In (k : string) (v : ShortenedUrl) (m : JsMap.t)
      (v' : ShortenedUrl) :
  In v' (JsMap.values (JsMap.set k v m)) -> v' = v \/ In v' (JsMap.values m).
Proof.
  unfold JsMap.values. induction m as [| [k' w] r IH]; simpl.
  - intuition congruence.
  - destruct (String.eqb k' k); simpl; intuition congruence.
Qed.

Lemma refresh_expired_cases (t : Z) (u : ShortenedUrl) :
  refresh_expired t u = u \/ refresh_expired t u = set_isExpired true u.
Proof. unfold refresh_expired. destruct (Z.gtb t (expiresAt u)); auto. Qed.

Section Registry.

Variable isValidUrl : string -> bool.

(** What an operation leaves in the registry: mappings that were there,
    possibly with the flag raised or one click pushed, and a new mapping. *)
Lemma step_values st op u' :
  In u' (JsMap.values (urls (step isValidUrl st op))) ->
  (exists u, In u (JsMap.values (urls st))
             /\ (u' = u \/ u' = set_isExpired true u
                 \/ exists c, is_record op = true /\ u' = push_click c u))
  \/ (exists request env code,
         op = OpCreate request env /\ u' = new_mapping request env code).
Proof.
  destruct op as [request env | code t | code src env | t | key |]; simpl.
  - destruct (createShortenedUrl isValidUrl st request env) as [r st'] eqn:Hc.
    destruct r as [u | message |]; simpl.
    + apply create_created_inv in Hc. destruct Hc as (_ & Hu & -> & _).
      intro Hin. apply values_set_In in Hin. destruct Hin as [-> | Hin].
      * right. exists request, env, (shortCode u). now split.
      * left; eauto.
    + pose proof (create_failed_state isValidUrl st request env message) as Hs.
      rewrite Hc in Hs. simpl in Hs. rewrite Hs by trivial. left; eauto.
    + pose proof (create_returns isValidUrl st request env) as Hr.
      rewrite Hc in Hr. now elim Hr.
  - unfold getUrlByShortCode.
    destruct (find (code_matches code) (JsMap.values (urls st))) as [u |];
      [| left; eauto].
    destruct (Z.gtb t (expiresAt u)); simpl; [| left; eauto].
    intro Hin. apply values_update_first_In in Hin.
    destruct Hin as [Hin | (v & Hv & ->)]; left; eauto.
  - unfold recordClickAndRedirect, getUrlByShortCode.
    destruct (find (code_matches code) (JsMap.values (urls st))) as [u |];
      [| left; eauto].
    destruct (Z.gtb (at_time env) (expiresAt u)); simpl;
      intro Hin; apply values_update_first_In in Hin;
      destruct Hin as [Hin | (v & Hv & ->)]; left; eauto 7.
  - intro Hin. apply values_update_all_In in Hin.
    destruct Hin as (v & Hv & ->).
    destruct (refresh_expired_cases t v) as [-> | ->]; left; eauto.
  - unfold deleteUrl. destruct (JsMap.has key (urls st)); simpl;
      [| left; eauto].
    intro Hin. apply values_delete_In in Hin. left; eauto.
  - intros [].
Qed.

(** C6.  [recordClickAndRedirect] on a code that no stored mapping holds, or
    whose holder is past its expiry, returns nothing and leaves every click
    sequence as it was; on a live code it returns the [originalUrl] of the
    holder and appends exactly one click to the sequence of that mapping,
    every other entry being untouched; after any other operation each
    stored mapping has the click sequence it had before, or is new and has
    none. *)
Theorem recordClickAndRedirect_clicks (st : UrlService) :
  (forall code src env,
      holder (urls st) code = None
      \/ (exists u, holder (urls st) code = Some u
                    /\ (at_time env > expiresAt u)%Z) ->
      fst (recordClickAndRedirect st code src env) = None
      /\ click_table (urls (snd (recordClickAndRedirect st code src env)))
         = click_table (urls st))
  /\ (forall code src env u,
         holder (urls st) code = Some u ->
         (at_time env <= expiresAt u)%Z ->
         exists l1 k l2 st',
           urls st = l1 ++ (k, u) :: l2
           /\ recordClickAndRedirect st code src env
              = (Some (originalUrl u), st')
           /\ urls st' = l1 ++ (k, push_click (click_of src env) u) :: l2
           /\ clicks (push_click (click_of src env) u)
              = clicks u ++ [click_of src env])
  /\ (forall op u',
         is_record op = false ->
         In u' (JsMap.values (urls (step isValidUrl st op))) ->
         clicks u' = []
         \/ exists u, In u (JsMap.values (urls st))
                      /\ id u = id u' /\ clicks u = clicks u').
Proof.
  split; [| split].
  - intros code src env Hdead.
    pose proof (getUrlByShortCode_not_live st code (at_time env) Hdead) as Hn.
    pose proof (getUrlByShortCode_click_table st code (at_time env)) as Ht.
    unfold recordClickAndRedirect.
    destruct (getUrlByShortCode st code (at_time env)) as [[u |] st'];
      simpl in *; [discriminate | tauto].
  - intros code src env u Hh Hle.
    destruct (update_first_split (code_matches code) (fun x => x) _ _ Hh)
      as (l1 & k & l2 & Hm & Hl1 & _).
    destruct (holder_Some _ _ _ Hh) as [_ Hcode].
    exists l1, k, l2. eexists. split; [exact Hm |].
    split; [apply recordClickAndRedirect_live; eassumption |].
    split; reflexivity.
  - intros op u' Hop Hin. apply step_values in Hin.
    destruct Hin as [(u & Hu & [-> | [-> | (c & Hc & _)]])
                    | (request & env & code & _ & ->)].
    + right; eauto.
    + right; exists u; auto.
    + congruence.
    + now left.
Qed.

(** ** The click counter *)





(** ** Deletion *)




Lemma create_custom_taken st request env custom :
  isValidUrl (req_originalUrl request) = true ->
  customShortCode request = Some custom ->
  isValidShortCode custom = true ->
  In custom (codes (urls st)) ->
  createShortenedUrl isValidUrl st request env = (ShortCodeTaken, st).
Proof.
  intros Hurl Hcustom Hvalid Hheld.
  apply isShortCodeTaken_In in Hheld.
  assert (Htruthy : truthy_string (customShortCode request) = Some custom).
  { rewrite Hcustom. destruct custom; [discriminate Hvalid | reflexivity]. }
  unfold createShortenedUrl. now rewrite Hurl, Htruthy, Hvalid, Hheld.
Qed.


(** ** Listing *)

Lemma sort_insert_Permutation cmp x l :
  Permutation (sort_insert cmp x l) (x :: l).
Proof.
  induction l as [| y r IH]; simpl; trivial.
  destruct (Z.leb (cmp x y) 0); trivial.
  rewrite IH. apply perm_swap.
Qed.

Lemma sort_Permutation cmp l : Permutation (sort cmp l) l.
Proof.
  induction l as [| x r IH]; simpl; trivial.
  rewrite sort_insert_Permutation. now constructor.
Qed.



(** The sort is stable: mappings created at the same instant keep the
    order they had. *)
Lemma sort_insert_stable (c : Z) x l :
  filter (fun u => Z.eqb (createdAt u) c) (sort_insert compare_createdAt x l)
  = filter (fun u => Z.eqb (createdAt u) c) (x :: l).
Proof.
  induction l as [| y r IH]; trivial.
  cbn [sort_insert]. unfold compare_createdAt at 1.
  destruct (Z.leb_spec (createdAt y - createdAt x) 0) as [Hle | Hgt]; trivial.
  cbn [filter] in *. rewrite IH.
  destruct (Z.eqb_spec (createdAt x) c) as [Hx | Hx]; trivial.
  destruct (Z.eqb_spec (createdAt y) c) as [Hy | Hy]; trivial. lia.
Qed.

Lemma sort_stable (c : Z) l :
  filter (fun u => Z.eqb (createdAt u) c) (sort compare_createdAt l)
  = filter (fun u => Z.eqb (createdAt u) c) l.
Proof.
  induction l as [| x r IH]; trivial.
  cbn [sort fold_right]. fold (sort compare_createdAt r).
  rewrite sort_insert_stable. cbn [filter]. now rewrite IH.
Qed.

Lemma values_update_all f m :
  JsMap.values (JsMap.update_all f m) = map f (JsMap.values m).
Proof.
  unfold JsMap.values, JsMap.update_all. rewrite !map_map. reflexivity.
Qed.









End Registry.

(** * Worked examples *)

Example promo_registry_urls :
  urls promo_registry = [("1700000000000k3x9q2m1a", promo_mapping)].
Proof. reflexivity. Qed.

Example crowded_registry_codes :
  codes (urls crowded_registry) = ["AAAAAA"; "AAAAAAAA"].
Proof. reflexivity. Qed.

(** The eight-character fallback is not checked: after 100 draws of the held
    code [AAAAAA], creation returns [AAAAAAAA], which another stored mapping
    already holds, and the registry ends with two mappings under one code. *)
Lemma fallback_code_duplicates :
  exists u st' held,
    createShortenedUrl https_only crowded_registry
      (example_request None None)
      (stuck_env (example_time + 2) "1700000000002c")
    = (Created u, st')
    /\ In held (JsMap.values (urls crowded_registry))
    /\ id held <> id u
    /\ shortCode u = shortCode held
    /\ codes (urls st') = ["AAAAAA"; "AAAAAAAA"; "AAAAAAAA"]
    /\ ~ NoDup (codes (urls st')).
Proof.
  eexists. eexists.
  exists (mkUrl "1700000000001b" example_url "AAAAAAAA" (Some "AAAAAAAA")
                (example_time + 1) (example_time + 1 + 30 * 60 * 1000)
                false [] 0).
  split; [vm_compute; reflexivity |].
  split; [vm_compute; auto |].
  split; [vm_compute; discriminate |].
  split; [reflexivity |].
  split; [reflexivity |].
  intro Hnd. simpl in Hnd.
  inversion Hnd as [| ? ? _ Hrest]; subst.
  inversion Hrest as [| ? ? Hnotin _]; subst.
  apply Hnotin. now left.
Qed.



(** The first draw, [AAAAAA], is held; the second, [BBBBBB], is free and is
    returned: the codes stay pairwise distinct. *)
Lemma create_code_unique_without_fallback_witness :
  exists u st',
    createShortenedUrl https_only crowded_registry
      (example_request None None)
      (stepping_env (example_time + 2) "1700000000002c")
    = (Created u, st')
    /\ shortCode u = "BBBBBB"
    /\ ~ In (shortCode u) (codes (urls crowded_registry))
    /\ NoDup (codes (urls st')).
Proof.
  eexists. eexists.
  split; [vm_compute; reflexivity |].
  split; [reflexivity |].
  destruct (proj1 (create_code_unique_without_fallback https_only)
                  crowded_registry (example_request None None)
                  (stepping_env (example_time + 2) "1700000000002c")
                  _ _ eq_refl eq_refl) as [Hfresh Hnd].
  split; [exact Hfresh |].
  apply Hnd. vm_compute.
  repeat (constructor; [cbn [In]; intuition discriminate |]).
  constructor.
Defined.




(** [promo1] at its very instant of expiry is still returned; one
    millisecond later it is not, and its flag is raised. *)
Lemma getUrlByShortCode_expiry_witness :
  getUrlByShortCode promo_registry "promo1" (example_time + 60000)
  = (Some promo_mapping, promo_registry)
  /\ (exists l1 k l2 st',
         urls promo_registry = l1 ++ (k, promo_mapping) :: l2
         /\ getUrlByShortCode promo_registry "promo1" (example_time + 60001)
            = (None, st')
         /\ urls st' = l1 ++ (k, set_isExpired true promo_mapping) :: l2
         /\ holder (urls st') "promo1" = Some (set_isExpired true promo_mapping)
         /\ isExpired (set_isExpired true promo_mapping) = true
         /\ storage st' = Some (urls st'))
  /\ getUrlByShortCode promo_registry "promo2" (example_time + 1)
     = (None, promo_registry).
Proof.
  split; [| split].
  - apply (proj1 (proj2 (getUrlByShortCode_expiry promo_registry "promo1"
                           (example_time + 60000))) promo_mapping eq_refl).
    vm_compute. discriminate.
  - apply (proj1 (proj2 (getUrlByShortCode_expiry promo_registry "promo1"
                           (example_time + 60001))) promo_mapping eq_refl).
    vm_compute. reflexivity.
  - apply (proj1 (getUrlByShortCode_expiry promo_registry "promo2"
                    (example_time + 1))).
    intros u [<- | []]. discriminate.
Defined.

(** One live access to [promo1] appends one click and yields the URL; an
    access after expiry yields nothing and no click. *)
Lemma recordClickAndRedirect_clicks_witness :
  (exists l1 k l2 st',
      urls promo_registry = l1 ++ (k, promo_mapping) :: l2
      /\ recordClickAndRedirect promo_registry "promo1" None
           (click_env (example_time + 10) "1700000000010c")
         = (Some example_url, st')
      /\ urls st'
         = l1 ++ (k, push_click
                       (click_of None
                          (click_env (example_time + 10) "1700000000010c"))
                       promo_mapping) :: l2
      /\ clicks (push_click
                   (click_of None
                      (click_env (example_time + 10) "1700000000010c"))
                   promo_mapping)
         = [] ++ [click_of None
                    (click_env (example_time + 10) "1700000000010c")])
  /\ fst (recordClickAndRedirect promo_registry "promo1" None
            (click_env (example_time + 61000) "1700000061000d")) = None
  /\ click_table
       (urls (snd (recordClickAndRedirect promo_registry "promo1" None
                     (click_env (example_time + 61000) "1700000061000d"))))
     = click_table (urls promo_registry).
Proof.
  split.
  - apply (proj1 (proj2 (recordClickAndRedirect_clicks https_only
                           promo_registry))
                 "promo1" None (click_env (example_time + 10) "1700000000010c")
                 promo_mapping eq_refl).
    vm_compute. discriminate.
  - apply (proj1 (recordClickAndRedirect_clicks https_only promo_registry)
                 "promo1" None
                 (click_env (example_time + 61000) "1700000061000d")).
    right. exists promo_mapping. split; [reflexivity |].
    vm_compute. reflexivity.
Defined.




(** * Further properties of the service *)

(** ** Keys and persistence *)

Lemma keys_set (k : string) (v : ShortenedUrl) (m : JsMap.t) :
  (In k (JsMap.keys m) /\ JsMap.keys (JsMap.set k v m) = JsMap.keys m)
  \/ (~ In k (JsMap.keys m) /\ JsMap.set k v m = m ++ [(k, v)]).
Proof.
  unfold JsMap.keys. induction m as [| [k' v'] r IH]; simpl.
  - right. tauto.
  - destruct (String.eqb_spec k' k) as [-> | Hne]; simpl.
    + left. tauto.
    + destruct IH as [[Hin Heq] | [Hnot Heq]].
      * left. rewrite Heq. tauto.
      * right. rewrite Heq. intuition congruence.
Qed.

Lemma keys_set_NoDup (k : string) (v : ShortenedUrl) (m : JsMap.t) :
  NoDup (JsMap.keys m) -> NoDup (JsMap.keys (JsMap.set k v m)).
Proof.
  intro Hnd. destruct (keys_set k v m) as [[_ ->] | [Hnot ->]]; trivial.
  unfold JsMap.keys in *. rewrite map_app. simpl.
  apply NoDup_app; trivial.
  - repeat constructor. intros [].
  - intros x Hx [<- | []]. contradiction.
Qed.

Lemma keys_update_first (p : ShortenedUrl -> bool)
      (f : ShortenedUrl -> ShortenedUrl) (m : JsMap.t) :
  JsMap.keys (JsMap.update_first p f m) = JsMap.keys m.
Proof.
  unfold JsMap.keys. induction m as [| [k v] r IH]; simpl; trivial.
  destruct (p v); simpl; congruence.
Qed.

Lemma keys_update_all (f : ShortenedUrl -> ShortenedUrl) (m : JsMap.t) :
  JsMap.keys (JsMap.update_all f m) = JsMap.keys m.
Proof.
  unfold JsMap.keys, JsMap.update_all. rewrite map_map. reflexivity.
Qed.

Lemma keys_delete_In (k k' : string) (m : JsMap.t) :
  In k' (JsMap.keys (JsMap.delete k m)) -> In k' (JsMap.keys m).
Proof.
  unfold JsMap.keys. induction m as [| [k0 v] r IH]; simpl; trivial.
  destruct (String.eqb k0 k); simpl; tauto.
Qed.

Lemma keys_delete_NoDup (k : string) (m : JsMap.t) :
  NoDup (JsMap.keys m) -> NoDup (JsMap.keys (JsMap.delete k m)).
Proof.
  unfold JsMap.keys. induction m as [| [k0 v] r IH]; simpl; trivial.
  intro Hnd. inversion Hnd as [| ? ? Hnotin Hr]; subst.
  destruct (String.eqb k0 k); simpl; trivial.
  constructor; [| now apply IH].
  intro Hin. apply Hnotin. now apply (keys_delete_In k).
Qed.

Lemma getUrlByShortCode_keys st code t :
  JsMap.keys (urls (snd (getUrlByShortCode st code t)))
  = JsMap.keys (urls st).
Proof.
  unfold getUrlByShortCode.
  destruct (find (code_matches code) (JsMap.values (urls st))) as [u |];
    trivial.
  destruct (Z.gtb t (expiresAt u)); simpl; trivial.
  apply keys_update_first.
Qed.

Lemma recordClickAndRedirect_keys st code src env :
  JsMap.keys (urls (snd (recordClickAndRedirect st code src env)))
  = JsMap.keys (urls st).
Proof.
  unfold recordClickAndRedirect.
  pose proof (getUrlByShortCode_keys st code (at_time env)) as Hk.
  destruct (getUrlByShortCode st code (at_time env)) as [[u |] st'];
    simpl in *; trivial.
  now rewrite keys_update_first.
Qed.

Lemma filed_update_first (p : ShortenedUrl -> bool)
      (f : ShortenedUrl -> ShortenedUrl) (m : JsMap.t) :
  (forall u, id (f u) = id u) ->
  filed_by_id m -> filed_by_id (JsMap.update_first p f m).
Proof.
  intros Hf. unfold filed_by_id.
  induction m as [| [k v] r IH]; simpl; trivial.
  intro H. inversion H as [| ? ? Hk Hr]; subst. simpl in Hk.
  destruct (p v); constructor; simpl; auto. now rewrite Hf.
Qed.

Lemma filed_set (v : ShortenedUrl) (m : JsMap.t) :
  filed_by_id m -> filed_by_id (JsMap.set (id v) v m).
Proof.
  unfold filed_by_id. induction m as [| [k w] r IH]; simpl; intro H.
  - repeat constructor.
  - inversion H as [| ? ? Hk Hr]; subst.
    destruct (String.eqb k (id v)); constructor; simpl; auto.
Qed.

Lemma filed_delete (k : string) (m : JsMap.t) :
  filed_by_id m -> filed_by_id (JsMap.delete k m).
Proof.
  unfold filed_by_id. induction m as [| [k' w] r IH]; simpl; trivial.
  intro H. inversion H as [| ? ? Hk Hr]; subst.
  destruct (String.eqb k' k); trivial. constructor; auto.
Qed.



Lemma delete_first_split (k : string) (m : JsMap.t) (u : ShortenedUrl) :
  JsMap.get k m = Some u ->
  exists l1 l2, m = l1 ++ (k, u) :: l2 /\ JsMap.delete k m = l1 ++ l2.
Proof.
  induction m as [| [k' v] r IH]; simpl; [discriminate |].
  destruct (String.eqb_spec k' k) as [-> | Hne].
  - intro H; injection H as ->. now exists [], r.
  - intro H. destruct (IH H) as (l1 & l2 & -> & ->).
    now exists ((k', v) :: l1), l2.
Qed.

Section Coverage.

Variable isValidUrl : string -> bool.

Lemma step_keys_NoDup st op :
  NoDup (JsMap.keys (urls st)) ->
  NoDup (JsMap.keys (urls (step isValidUrl st op))).
Proof.
  intro Hnd.
  destruct op as [request env | code t | code src env | t | key |]; simpl.
  - destruct (create_cases isValidUrl st request env)
      as [(u & ->) | (message & ->)]; simpl; trivial.
    now apply keys_set_NoDup.
  - now rewrite getUrlByShortCode_keys.
  - now rewrite recordClickAndRedirect_keys.
  - now rewrite keys_update_all.
  - unfold deleteUrl. destruct (JsMap.has key (urls st)); simpl; trivial.
    now apply keys_delete_NoDup.
  - constructor.
Qed.

Lemma step_filed st op :
  filed_by_id (urls st) -> filed_by_id (urls (step isValidUrl st op)).
Proof.
  intro Hf.
  destruct op as [request env | code t | code src env | t | key |]; simpl.
  - destruct (createShortenedUrl isValidUrl st request env) as [r st'] eqn:Hc.
    destruct (create_cases isValidUrl st request env)
      as [(u & Hu) | (message & Hm)].
    + rewrite Hu in Hc. injection Hc as <- <-. simpl.
      pose proof (create_created_inv _ _ _ _ _ _ Hu) as (_ & Hnew & _).
      replace (fresh env) with (id u) by (rewrite Hnew; reflexivity).
      now apply filed_set.
    + rewrite Hm in Hc. now injection Hc as <- <-.
  - unfold getUrlByShortCode.
    destruct (find (code_matches code) (JsMap.values (urls st))) as [u |];
      trivial.
    destruct (Z.gtb t (expiresAt u)); simpl; trivial.
    now apply filed_update_first.
  - unfold recordClickAndRedirect, getUrlByShortCode.
    destruct (find (code_matches code) (JsMap.values (urls st))) as [u |];
      trivial.
    destruct (Z.gtb (at_time env) (expiresAt u)); simpl;
      now apply filed_update_first.
  - unfold filed_by_id, JsMap.update_all in *. rewrite Forall_map.
    eapply Forall_impl; [| exact Hf]. intros [k v] Hk; simpl in *.
    unfold refresh_expired. now destruct (Z.gtb t (expiresAt v)).
  - unfold deleteUrl. destruct (JsMap.has key (urls st)); simpl; trivial.
    now apply filed_delete.
  - constructor.
Qed.


Lemma run_invariant (P : UrlService -> Prop) :
  (forall st op, P st -> P (step isValidUrl st op)) ->
  forall ops st, P st -> P (run isValidUrl st ops).
Proof.
  intros Hstep ops. induction ops as [| op rest IH]; intros st Hst; simpl;
    auto.
Qed.


(** X2.  In every state reached from the empty registry the keys of the map
    are pairwise distinct and each mapping sits under its own [id]. *)
Theorem entries_filed_by_distinct_ids (ops : list Op) :
  NoDup (JsMap.keys (urls (run isValidUrl (loadFromStorage None) ops)))
  /\ filed_by_id (urls (run isValidUrl (loadFromStorage None) ops)).
Proof.
  apply (run_invariant
           (fun st => NoDup (JsMap.keys (urls st)) /\ filed_by_id (urls st))).
  - intros st op [Hnd Hf]. split;
      [now apply step_keys_NoDup | now apply step_filed].
  - split; constructor.
Qed.

(** ** Creation, once more *)

Lemma set_at (k : string) (v old : ShortenedUrl) (l1 l2 : JsMap.t) :
  ~ In k (JsMap.keys l1) ->
  JsMap.set k v (l1 ++ (k, old) :: l2) = l1 ++ (k, v) :: l2.
Proof.
  unfold JsMap.keys. induction l1 as [| [k' w] l1 IH]; simpl; intro Hnot.
  - now rewrite String.eqb_refl.
  - destruct (String.eqb_spec k' k) as [-> | Hne]; [tauto |].
    rewrite IH; tauto.
Qed.

(** X3.  A successful creation appends its mapping at the end of the map
    when the identifier is new.  The identifier is not checked against the
    stored ones: when it is already a key, the mapping stored under it is
    replaced in place and is gone. *)
Theorem create_places_entry st request env u st' :
  createShortenedUrl isValidUrl st request env = (Created u, st') ->
  (~ In (fresh env) (JsMap.keys (urls st)) ->
   urls st' = urls st ++ [(fresh env, u)])
  /\ (forall l1 old l2,
         urls st = l1 ++ (fresh env, old) :: l2 ->
         ~ In (fresh env) (JsMap.keys l1) ->
         urls st' = l1 ++ (fresh env, u) :: l2).
Proof.
  intro Hc. apply create_created_inv in Hc.
  destruct Hc as (_ & _ & -> & _). split.
  - intro Hnew.
    destruct (keys_set (fresh env) u (urls st)) as [[Hin _] | [_ ->]];
      [contradiction | reflexivity].
  - intros l1 old l2 -> Hl1. now apply set_at.
Qed.

Lemma holder_set_fresh (k : string) (v : ShortenedUrl) (m : JsMap.t) :
  ~ In (shortCode v) (codes m) ->
  holder (JsMap.set k v m) (shortCode v) = Some v.
Proof.
  unfold holder, codes, JsMap.values, code_matches.
  induction m as [| [k' w] r IH]; simpl; intro Hfresh.
  - now rewrite String.eqb_refl.
  - destruct (String.eqb k' k); simpl.
    + now rewrite String.eqb_refl.
    + destruct (String.eqb_spec (shortCode w) (shortCode v)) as [Heq | Hne];
        [tauto |]. apply IH. tauto.
Qed.

(** X4.  A code returned by a creation that did not fall back on the
    unchecked draw resolves to the mapping just created: until the instant
    of expiry included, lookup returns that mapping and a recorded access
    returns the URL of the request; after it, lookup returns nothing. *)
Theorem created_code_resolves st request env u st' :
  createShortenedUrl isValidUrl st request env = (Created u, st') ->
  used_fallback (urls st) request env = false ->
  (forall t, (t <= expiresAt u)%Z ->
             getUrlByShortCode st' (shortCode u) t = (Some u, st'))
  /\ (forall src cenv,
         (at_time cenv <= expiresAt u)%Z ->
         fst (recordClickAndRedirect st' (shortCode u) src cenv)
         = Some (req_originalUrl request))
  /\ (forall t, (t > expiresAt u)%Z ->
                fst (getUrlByShortCode st' (shortCode u) t) = None).
Proof.
  intros Hc Hfb.
  pose proof (create_code_not_held _ _ _ _ _ _ Hc Hfb) as Hfresh.
  apply create_created_inv in Hc. destruct Hc as (_ & Hu & Hurls & _).
  assert (Hh : holder (urls st') (shortCode u) = Some u)
    by (rewrite Hurls; now apply holder_set_fresh).
  split; [| split].
  - intros t Hle. now apply getUrlByShortCode_live.
  - intros src cenv Hle. unfold recordClickAndRedirect.
    rewrite (getUrlByShortCode_live _ _ _ _ Hh Hle). simpl.
    rewrite Hu. reflexivity.
  - intros t Hgt. apply getUrlByShortCode_not_live. right. eauto.
Qed.


(** X8.  Expiry hides a mapping without freeing its code: right after a
    lookup has found the holder of a code expired, creating that code as a
    custom code still fails with [ShortCodeTaken]. *)
Theorem expired_code_stays_taken st code u t request env :
  holder (urls st) code = Some u ->
  (t > expiresAt u)%Z ->
  isValidUrl (req_originalUrl request) = true ->
  customShortCode request = Some code ->
  isValidShortCode code = true ->
  fst (getUrlByShortCode st code t) = None
  /\ createShortenedUrl isValidUrl (snd (getUrlByShortCode st code t))
       request env
     = (ShortCodeTaken, snd (getUrlByShortCode st code t)).
Proof.
  intros Hh Hgt Hurl Hcustom Hvalid. split.
  - apply getUrlByShortCode_not_live. right. eauto.
  - apply create_custom_taken with (custom := code); trivial.
    rewrite getUrlByShortCode_codes.
    destruct (holder_Some _ _ _ Hh) as [Hin <-].
    unfold codes. now apply in_map.
Qed.

(** ** Deletion, once more *)

Lemma get_has (k : string) (m : JsMap.t) (u : ShortenedUrl) :
  JsMap.get k m = Some u -> JsMap.has k m = true.
Proof.
  induction m as [| [k' v] r IH]; simpl; [discriminate |].
  destruct (String.eqb k' k); auto.
Qed.

Lemma holder_absent (m : JsMap.t) (code : string) :
  ~ In code (codes m) -> holder m code = None.
Proof.
  intro Hnot. apply holder_None. intros u Hin Hcode. apply Hnot.
  unfold codes. rewrite <- Hcode. now apply in_map.
Qed.

(** X6.  Where codes are pairwise distinct, deleting a mapping makes its
    code unknown: at any instant afterwards lookup and a recorded access
    return nothing and change nothing. *)
Theorem deleted_code_not_found st key u :
  NoDup (codes (urls st)) ->
  JsMap.get key (urls st) = Some u ->
  fst (deleteUrl st key) = true
  /\ (forall t,
         getUrlByShortCode (snd (deleteUrl st key)) (shortCode u) t
         = (None, snd (deleteUrl st key)))
  /\ (forall src env,
         recordClickAndRedirect (snd (deleteUrl st key)) (shortCode u) src env
         = (None, snd (deleteUrl st key))).
Proof.
  intros Hnd Hget.
  pose proof (get_has _ _ _ Hget) as Hhas.
  destruct (delete_first_split key (urls st) u Hget)
    as (l1 & l2 & Hm & Hdel).
  unfold deleteUrl. rewrite Hhas, Hdel. simpl.
  assert (Hh : holder (l1 ++ l2) (shortCode u) = None).
  { apply holder_absent. rewrite Hm in Hnd.
    unfold codes, JsMap.values in *. rewrite !map_app in *. simpl in Hnd.
    now apply NoDup_remove_2 in Hnd. }
  assert (Hlookup : forall t sto,
             getUrlByShortCode (mkService (l1 ++ l2) sto) (shortCode u) t
             = (None, mkService (l1 ++ l2) sto)).
  { intros t sto. unfold getUrlByShortCode. simpl.
    unfold holder in Hh. now rewrite Hh. }
  split; [reflexivity |]. split.
  - intro t. apply Hlookup.
  - intros src env. unfold recordClickAndRedirect, saveToStorage. simpl.
    now rewrite Hlookup.
Qed.

(** ** What becomes of a stored mapping *)

Lemma get_In_keys (k : string) (m : JsMap.t) (u : ShortenedUrl) :
  JsMap.get k m = Some u -> In k (JsMap.keys m).
Proof.
  unfold JsMap.keys. induction m as [| [k' v] r IH]; simpl; [discriminate |].
  destruct (String.eqb_spec k' k); auto.
Qed.

Lemma get_set (k k' : string) (v : ShortenedUrl) (m : JsMap.t) :
  JsMap.get k (JsMap.set k' v m)
  = if String.eqb k' k then Some v else JsMap.get k m.
Proof.
  induction m as [| [k0 w] r IH]; simpl; trivial.
  destruct (String.eqb_spec k0 k') as [-> | Hne]; simpl.
  - destruct (String.eqb k' k); trivial.
  - rewrite IH. destruct (String.eqb_spec k0 k) as [-> | Hne'];
      destruct (String.eqb_spec k' k); congruence.
Qed.

Lemma get_update_first (p : ShortenedUrl -> bool)
      (f : ShortenedUrl -> ShortenedUrl) (k : string) (m : JsMap.t)
      (u' : ShortenedUrl) :
  JsMap.get k (JsMap.update_first p f m) = Some u' ->
  exists u, JsMap.get k m = Some u /\ (u' = u \/ u' = f u).
Proof.
  induction m as [| [k0 v] r IH]; simpl; [discriminate |].
  destruct (p v); simpl; destruct (String.eqb k0 k); eauto.
  intro H; injection H as <-. eauto.
Qed.

Lemma get_update_all (f : ShortenedUrl -> ShortenedUrl) (k : string)
      (m : JsMap.t) :
  JsMap.get k (JsMap.update_all f m) = option_map f (JsMap.get k m).
Proof.
  unfold JsMap.update_all. induction m as [| [k0 v] r IH]; simpl; trivial.
  destruct (String.eqb k0 k); trivial.
Qed.

Lemma get_delete (k key : string) (m : JsMap.t) (u' : ShortenedUrl) :
  NoDup (JsMap.keys m) ->
  JsMap.get k (JsMap.delete key m) = Some u' -> JsMap.get k m = Some u'.
Proof.
  induction m as [| [k0 v] r IH]; simpl; trivial.
  intro Hnd. inversion Hnd as [| ? ? Hnotin Hr]; subst.
  destruct (String.eqb_spec k0 key) as [-> | Hne]; simpl.
  - intro Hget. destruct (String.eqb_spec key k) as [-> | _]; trivial.
    elim Hnotin. eapply get_In_keys; eauto.
  - destruct (String.eqb k0 k); auto.
Qed.

Lemma evolution_same (u : ShortenedUrl) :
  fixed_fields u = fixed_fields u
  /\ (isExpired u = true -> isExpired u = true)
  /\ exists extra, clicks u = clicks u ++ extra /\ extra = [].
Proof. repeat split; trivial. exists []. now rewrite app_nil_r. Qed.

Lemma evolution_flag (u : ShortenedUrl) :
  fixed_fields (set_isExpired true u) = fixed_fields u
  /\ (isExpired u = true -> isExpired (set_isExpired true u) = true)
  /\ exists extra, clicks (set_isExpired true u) = clicks u ++ extra
                   /\ extra = [].
Proof. repeat split; trivial. exists []. simpl. now rewrite app_nil_r. Qed.

(** X7.  What any one operation does to a mapping that stays in the
    registry: its [id], [originalUrl], [shortCode], [customCode],
    [createdAt] and [expiresAt] are as before, a raised [isExpired] flag
    stays raised, and its clicks are the former ones followed by at most
    one new click, by none unless the operation records an access.  The
    only other mapping an operation can leave under a key is the one a
    creation has just made under its new identifier. *)
Theorem stored_entry_evolution st op k u' :
  NoDup (JsMap.keys (urls st)) ->
  JsMap.get k (urls (step isValidUrl st op)) = Some u' ->
  (exists u,
      JsMap.get k (urls st) = Some u
      /\ fixed_fields u' = fixed_fields u
      /\ (isExpired u = true -> isExpired u' = true)
      /\ exists extra,
          clicks u' = clicks u ++ extra
          /\ List.length extra <= 1
          /\ (is_record op = false -> extra = []))
  \/ (exists request env,
         op = OpCreate request env /\ k = fresh env
         /\ clicks u' = [] /\ isExpired u' = false).
Proof.
  intros Hnd Hget.
  assert (Hsame : forall u, JsMap.get k (urls st) = Some u -> u' = u ->
            exists u0,
              JsMap.get k (urls st) = Some u0
              /\ fixed_fields u' = fixed_fields u0
              /\ (isExpired u0 = true -> isExpired u' = true)
              /\ exists extra,
                  clicks u' = clicks u0 ++ extra
                  /\ List.length extra <= 1
                  /\ (is_record op = false -> extra = [])).
  { intros u Hu ->. exists u.
    destruct (evolution_same u) as (H1 & H2 & extra & H3 & ->).
    repeat split; trivial. exists []. simpl. auto. }
  assert (Hflag : forall u, JsMap.get k (urls st) = Some u ->
            u' = set_isExpired true u ->
            exists u0,
              JsMap.get k (urls st) = Some u0
              /\ fixed_fields u' = fixed_fields u0
              /\ (isExpired u0 = true -> isExpired u' = true)
              /\ exists extra,
                  clicks u' = clicks u0 ++ extra
                  /\ List.length extra <= 1
                  /\ (is_record op = false -> extra = [])).
  { intros u Hu ->. exists u.
    destruct (evolution_flag u) as (H1 & H2 & extra & H3 & ->).
    repeat split; trivial. exists []. simpl. auto. }
  destruct op as [request env | code t | code src env | t | key |];
    simpl in Hget.
  - destruct (create_cases isValidUrl st request env)
      as [(u & Hc) | (message & Hc)]; rewrite Hc in Hget; simpl in Hget.
    + rewrite get_set in Hget.
      destruct (String.eqb_spec (fresh env) k) as [<- | Hne].
      * injection Hget as <-. right. exists request, env.
        apply create_created_inv in Hc. destruct Hc as (_ & -> & _).
        repeat split; reflexivity.
      * left. eauto.
    + left. eauto.
  - left. unfold getUrlByShortCode in Hget.
    destruct (find (code_matches code) (JsMap.values (urls st))) as [u |];
      [| eauto].
    destruct (Z.gtb t (expiresAt u)); simpl in Hget; [| eauto].
    apply get_update_first in Hget.
    destruct Hget as (w & Hw & [-> | ->]); eauto.
  - left. unfold recordClickAndRedirect, getUrlByShortCode in Hget.
    destruct (find (code_matches code) (JsMap.values (urls st))) as [u |];
      [| eauto].
    destruct (Z.gtb (at_time env) (expiresAt u)); simpl in Hget;
      apply get_update_first in Hget;
      destruct Hget as (w & Hw & [-> | ->]); eauto.
    exists w. split; [exact Hw |]. split; [reflexivity |].
    split; [trivial |]. exists [click_of src env].
    split; [reflexivity |]. split; [simpl; lia | discriminate].
  - left. rewrite get_update_all in Hget.
    destruct (JsMap.get k (urls st)) as [w |] eqn:Hw; [| discriminate].
    simpl in Hget. injection Hget as Hu'. symmetry in Hu'.
    destruct (refresh_expired_cases t w) as [Hr | Hr]; rewrite Hr in Hu'.
    + apply (Hsame w); trivial.
    + apply (Hflag w); trivial.
  - left. unfold deleteUrl in Hget.
    destruct (JsMap.has key (urls st)); simpl in Hget; [| eauto].
    apply get_delete in Hget; eauto.
  - discriminate.
Qed.

(** ** Listing twice *)

Lemma refresh_expired_twice (t : Z) (u : ShortenedUrl) :
  refresh_expired t (refresh_expired t u) = refresh_expired t u.
Proof.
  unfold refresh_expired.
  destruct (Z.gtb t (expiresAt u)) eqn:Hgt; simpl; now rewrite Hgt.
Qed.

(** X9.  Listing is idempotent: a second [getAllUrls] at the same instant
    returns the same sequence and leaves the registry and the stored
    snapshot as the first one left them. *)
Theorem getAllUrls_idempotent (st : UrlService) (t : Z) :
  getAllUrls (snd (getAllUrls st t)) t = getAllUrls st t.
Proof.
  unfold getAllUrls, saveToStorage. simpl.
  assert (H : JsMap.update_all (refresh_expired t)
                (JsMap.update_all (refresh_expired t) (urls st))
              = JsMap.update_all (refresh_expired t) (urls st)).
  { unfold JsMap.update_all. rewrite map_map. apply map_ext.
    intros [k v]. simpl. now rewrite refresh_expired_twice. }
  now rewrite H.
Qed.

(** ** The stored codes are well formed *)

Lemma created_code_valid st request env u st' :
  (forall i, randoms env i < 62) ->
  createShortenedUrl isValidUrl st request env = (Created u, st') ->
  isValidShortCode (shortCode u) = true.
Proof.
  intros Hrnd Hc. apply create_created_inv in Hc.
  destruct Hc as (_ & _ & _ & _ & Hcode).
  destruct (truthy_string (customShortCode request)) as [custom |].
  - destruct Hcode as (-> & Hvalid & _). exact Hvalid.
  - apply generateUniqueShortCode_cases in Hcode.
    unfold isValidShortCode.
    destruct Hcode as [(_ & _ & j & _ & ->) | (_ & ->)].
    + destruct (generateShortCode_shape (randoms env) 6 (6 * j) Hrnd)
        as [Hlen Hall].
      fold (draw6 (randoms env) j) in Hlen, Hall. now rewrite Hlen, Hall.
    + destruct (generateShortCode_shape (randoms env) 8 (6 * S maxAttempts)
                                        Hrnd) as [Hlen Hall].
      fold (fallback8 (randoms env)) in Hlen, Hall. now rewrite Hlen, Hall.
Qed.

Lemma step_codes_valid st op :
  randoms_in_range [op] ->
  Forall (fun c => isValidShortCode c = true) (codes (urls st)) ->
  Forall (fun c => isValidShortCode c = true)
         (codes (urls (step isValidUrl st op))).
Proof.
  intros Hop Hst.
  destruct op as [request env | code t | code src env | t | key |]; simpl.
  - destruct Hop as [Hrnd _].
    destruct (createShortenedUrl isValidUrl st request env) as [r st'] eqn:Hc.
    destruct (create_cases isValidUrl st request env)
      as [(u & Hu) | (message & Hm)].
    + rewrite Hu in Hc. injection Hc as <- <-. simpl.
      apply Forall_forall. intros c Hin. apply codes_set_In in Hin.
      destruct Hin as [-> | Hin].
      * eapply created_code_valid; eauto.
      * rewrite Forall_forall in Hst. now apply Hst.
    + rewrite Hm in Hc. now injection Hc as <- <-.
  - now rewrite getUrlByShortCode_codes.
  - unfold recordClickAndRedirect.
    pose proof (getUrlByShortCode_codes st code (at_time env)) as Hg.
    destruct (getUrlByShortCode st code (at_time env)) as [[u |] st'];
      simpl in *.
    + rewrite codes_update_first by apply push_click_shortCode.
      now rewrite Hg.
    + now rewrite Hg.
  - rewrite codes_update_all; trivial.
    intro u. unfold refresh_expired. now destruct (Z.gtb t (expiresAt u)).
  - unfold deleteUrl. destruct (JsMap.has key (urls st)); simpl; trivial.
    apply Forall_forall. intros c Hin. apply codes_delete_incl in Hin.
    rewrite Forall_forall in Hst. now apply Hst.
  - constructor.
Qed.

Lemma run_codes_valid ops : forall st,
  randoms_in_range ops ->
  Forall (fun c => isValidShortCode c = true) (codes (urls st)) ->
  Forall (fun c => isValidShortCode c = true)
         (codes (urls (run isValidUrl st ops))).
Proof.
  induction ops as [| op rest IH]; intros st Hops Hst; simpl; trivial.
  apply IH.
  - destruct op; simpl in Hops; tauto.
  - apply step_codes_valid; trivial.
    destruct op; simpl in *; tauto.
Qed.

(** X10.  With random indices inside the alphabet, every code stored in a
    state reached from the empty registry, custom or generated, matches
    the pattern of short codes: 1 to 20 alphanumeric characters. *)
Theorem stored_codes_well_formed (ops : list Op) :
  randoms_in_range ops ->
  Forall (fun c => isValidShortCode c = true)
         (codes (urls (run isValidUrl (loadFromStorage None) ops))).
Proof.
  intro Hops. apply run_codes_valid; [exact Hops | constructor].
Qed.

End Coverage.

(** * Properties of the logger *)

Lemma log_entry_firstn (Data : Type) (e : Logger.LogEntry Data)
      (l : list (Logger.LogEntry Data)) :
  Logger.log_entry Data (firstn Logger.maxLogs l) e
  = firstn Logger.maxLogs (e :: l).
Proof.
  unfold Logger.log_entry, Logger.log. destruct e as [t lv msg d src].
  cbn [Logger.timestamp Logger.level Logger.message Logger.data Logger.source].
  set (e := Logger.mkEntry Data t lv msg d src).
  destruct (Nat.ltb_spec Logger.maxLogs
              (List.length (e :: firstn Logger.maxLogs l))) as [Hlt | Hge].
  - change (firstn Logger.maxLogs (e :: firstn Logger.maxLogs l))
      with (e :: firstn 999 (firstn Logger.maxLogs l)).
    rewrite firstn_firstn. reflexivity.
  - cbn [List.length] in Hge. rewrite length_firstn in Hge.
    assert (Hl : List.length l < Logger.maxLogs) by lia.
    rewrite (@firstn_all2 _ Logger.maxLogs l) by lia.
    symmetry. apply firstn_all2. cbn [List.length]. lia.
Qed.

Lemma log_entries_firstn (Data : Type) (es : list (Logger.LogEntry Data)) :
  forall l,
    Logger.log_entries Data (firstn Logger.maxLogs l) es
    = firstn Logger.maxLogs (rev es ++ l).
Proof.
  unfold Logger.log_entries.
  induction es as [| e rest IH]; intro l; cbn [fold_left rev app]; trivial.
  rewrite log_entry_firstn, IH, <- app_assoc. reflexivity.
Qed.

(** X11.  After any number of calls of [log] on the empty store, [getLogs]
    returns the 1000 most recent entries (all of them when fewer), the
    newest first; the store never holds more than 1000. *)
Theorem logger_keeps_most_recent (Data : Type)
        (es : list (Logger.LogEntry Data)) :
  Logger.getLogs Data (Logger.log_entries Data [] es) = firstn 1000 (rev es)
  /\ List.length (Logger.getLogs Data (Logger.log_entries Data [] es))
     = Nat.min 1000 (List.length es).
Proof.
  assert (H : Logger.log_entries Data [] es = firstn 1000 (rev es)).
  { change (@nil (Logger.LogEntry Data)) with (firstn Logger.maxLogs
                                                 (@nil (Logger.LogEntry Data))).
    rewrite log_entries_firstn, app_nil_r. reflexivity. }
  unfold Logger.getLogs. rewrite H. split; trivial.
  now rewrite length_firstn, length_rev.
Qed.

(** X12.  One call of [log] on a store within its bound puts the new entry
    first and keeps the bound; the older entries follow in their order, the
    oldest one being dropped exactly when the store was full. *)
Theorem logger_drops_oldest_when_full (Data : Type)
        (logs : list (Logger.LogEntry Data)) (now : Z)
        (lvl : Logger.LogLevel) (msg : string) (d : option Data)
        (src : option string) :
  List.length logs <= Logger.maxLogs ->
  Logger.log Data logs now lvl msg d src
  = Logger.mkEntry Data now lvl msg d src :: firstn 999 logs
  /\ List.length (Logger.log Data logs now lvl msg d src) <= Logger.maxLogs
  /\ (List.length logs < Logger.maxLogs -> firstn 999 logs = logs)
  /\ (List.length logs = Logger.maxLogs ->
      exists oldest, logs = firstn 999 logs ++ [oldest]).
Proof.
  intro Hlen.
  pose proof (log_entry_firstn Data (Logger.mkEntry Data now lvl msg d src)
                               logs) as H.
  rewrite (@firstn_all2 _ Logger.maxLogs logs) in H by lia.
  change (Logger.log_entry Data logs
            (Logger.mkEntry Data now lvl msg d src))
    with (Logger.log Data logs now lvl msg d src) in H.
  change (firstn Logger.maxLogs
            (Logger.mkEntry Data now lvl msg d src :: logs))
    with (Logger.mkEntry Data now lvl msg d src :: firstn 999 logs) in H.
  split; [exact H |]. split; [| split].
  - rewrite H. cbn [List.length]. rewrite length_firstn.
    unfold Logger.maxLogs. lia.
  - intro Hlt. apply firstn_all2. unfold Logger.maxLogs in Hlt. lia.
  - intro Hfull.
    pose proof (firstn_skipn 999 logs) as Hsplit.
    assert (Hs : List.length (skipn 999 logs) = 1)
      by (rewrite length_skipn, Hfull; reflexivity).
    destruct (skipn 999 logs) as [| oldest [| ? ?]]; try discriminate.
    exists oldest. now symmetry.
Qed.

(** * Properties of the form *)

Lemma remove_index_length (A : Type) (l : list A) : forall index,
  List.length (remove_index index l)
  = if index <? List.length l then List.length l - 1 else List.length l.
Proof.
  induction l as [| x r IH]; intros [| index]; simpl; trivial.
  - lia.
  - rewrite IH. change (S index <? S (List.length r))
      with (index <? List.length r).
    destruct (Nat.ltb_spec index (List.length r)); lia.
Qed.

Lemma form_step_bounds (forms : list UrlFormData) (a : FormAction) :
  1 <= List.length forms <= 5 ->
  1 <= List.length (form_step forms a) <= 5.
Proof.
  intro H. destruct a as [| index]; simpl.
  - unfold addForm. destruct (Nat.ltb_spec (List.length forms) 5); trivial.
    rewrite length_app. simpl. lia.
  - unfold removeForm. destruct (Nat.ltb_spec 1 (List.length forms)); trivial.
    rewrite remove_index_length.
    destruct (index <? List.length forms); lia.
Qed.

(** X13.  Whatever forms are added and removed, starting from the single
    blank form, the page shows at least one form and at most five. *)
Theorem form_count_bounds (actions : list FormAction) :
  1 <= List.length (fold_left form_step actions [blank_form]) <= 5.
Proof.
  assert (H : forall forms, 1 <= List.length forms <= 5 ->
                1 <= List.length (fold_left form_step actions forms) <= 5).
  { induction actions as [| a rest IH]; intros forms Hf; simpl; trivial.
    apply IH. now apply form_step_bounds. }
  apply H. simpl. lia.
Qed.

Section FormProperties.

Variable isValidUrl : string -> bool.
Variable trim : string -> string.
Variable parseInt : string -> option Z.

Lemma validateForm_passed (f : UrlFormData) :
  validateForm isValidUrl trim parseInt f = [] ->
  isValidUrl (form_originalUrl f) = true
  /\ (form_validityMinutes f = ""
      \/ (form_validityMinutes f <> ""
          /\ exists m, parseInt (form_validityMinutes f) = Some m
                       /\ (1 <= m <= 525600)%Z))
  /\ (form_customShortCode f = ""
      \/ (form_customShortCode f <> ""
          /\ isValidShortCode (form_customShortCode f) = true)).
Proof.
  unfold validateForm. intro H.
  apply app_eq_nil in H. destruct H as [Hurl H].
  apply app_eq_nil in H. destruct H as [Hmin Hcode].
  split; [| split].
  - unfold validate_url in Hurl.
    destruct (String.eqb (trim (form_originalUrl f)) ""); [discriminate |].
    destruct (isValidUrl (form_originalUrl f)); [trivial | discriminate].
  - unfold validate_minutes in Hmin.
    destruct (String.eqb_spec (form_validityMinutes f) ""); [now left |].
    right. split; trivial.
    destruct (parseInt (form_validityMinutes f)) as [m |]; [| discriminate].
    exists m. split; trivial.
    destruct (Z.ltb_spec m 1); [discriminate |].
    destruct (Z.ltb_spec 525600 m); [discriminate | lia].
  - unfold validate_code in Hcode.
    destruct (String.eqb_spec (form_customShortCode f) ""); [now left |].
    right. split; trivial.
    destruct (isValidShortCode (form_customShortCode f));
      [trivial | discriminate].
Qed.

Lemma truthy_string_Some (s : string) :
  s <> "" -> truthy_string (Some s) = Some s.
Proof. destruct s; [contradiction | reflexivity]. Qed.

(** X14.  A form that passes [validateForm] is never turned down by the
    service for its URL or for the shape of its code: [submitForm] either
    stores and returns a mapping for the URL typed, under the custom code
    when one was typed, or fails with the message of a taken code, which
    happens only when the typed code is held by a stored mapping. *)
Theorem validated_form_outcome st f env :
  validateForm isValidUrl trim parseInt f = [] ->
  (exists u st',
      submitForm isValidUrl trim parseInt st f env = (Shortened u, st')
      /\ JsMap.get (id u) (urls st') = Some u
      /\ originalUrl u = form_originalUrl f
      /\ (form_customShortCode f <> "" ->
          shortCode u = form_customShortCode f))
  \/ (submitForm isValidUrl trim parseInt st f env
      = (Failed "Short code already exists. Please choose a different one.",
         st)
      /\ form_customShortCode f <> ""
      /\ In (form_customShortCode f) (codes (urls st))).
Proof.
  intro Hv. unfold submitForm. rewrite Hv.
  apply validateForm_passed in Hv. destruct Hv as (Hurl & _ & Hcode).
  unfold createShortenedUrl, form_request.
  cbn [req_originalUrl customShortCode validityMinutes].
  rewrite Hurl. cbn [negb].
  destruct Hcode as [-> | [Hne Hvalid]].
  - cbn [truthy_string].
    destruct (generateUniqueShortCode_returns (urls st) (randoms env))
      as [code ->]. left.
    eexists; eexists. split; [reflexivity |]. simpl.
    split; [apply get_set_same |]. split; [reflexivity |].
    intro H. now elim H.
  - rewrite !(truthy_string_Some _ Hne), Hvalid. cbn [negb].
    destruct (isShortCodeTaken (urls st) (form_customShortCode f)) eqn:Ht.
    + right. apply isShortCodeTaken_In in Ht. auto.
    + left. eexists; eexists. split; [reflexivity |]. simpl.
      split; [apply get_set_same |]. split; reflexivity.
Qed.

(** X15.  A mapping created from a validated form lives for the duration
    typed: with the field left empty it expires 30 minutes after its
    creation, otherwise exactly [m] minutes after it, [m] being the number
    typed, between 1 and 525600; the default never replaces a typed
    duration. *)
Theorem validated_form_duration st f env u st' :
  validateForm isValidUrl trim parseInt f = [] ->
  submitForm isValidUrl trim parseInt st f env = (Shortened u, st') ->
  createdAt u = now env
  /\ ((form_validityMinutes f = ""
       /\ expiresAt u = (createdAt u + 30 * 60000)%Z)
      \/ (form_validityMinutes f <> ""
          /\ exists m,
              parseInt (form_validityMinutes f) = Some m
              /\ (1 <= m <= 525600)%Z
              /\ expiresAt u = (createdAt u + m * 60000)%Z)).
Proof.
  intros Hv Hs. unfold submitForm in Hs. rewrite Hv in Hs.
  apply validateForm_passed in Hv. destruct Hv as (_ & Hmin & _).
  destruct (createShortenedUrl isValidUrl st
              (form_request parseInt f) env) as [r st1] eqn:Hc.
  destruct r as [u1 | msg |]; try discriminate.
  injection Hs as <- <-.
  apply create_created_inv in Hc. destruct Hc as (_ & -> & _).
  unfold new_mapping, form_request. simpl. split; [reflexivity |].
  destruct Hmin as [Hblank | (Hne & m & Hm & Hrange)].
  - left. split; trivial. rewrite Hblank. simpl. lia.
  - right. split; trivial. exists m. split; trivial. split; trivial.
    destruct (String.eqb_spec (form_validityMinutes f) "");
      [contradiction |].
    rewrite Hm. simpl. destruct (Z.eqb_spec m 0); lia.
Qed.

End FormProperties.

(** * Properties of the time labels *)

Lemma show_head (z : Z) (rest : string) :
  exists c tail,
    String.append (show z) rest = String c tail
    /\ c <> "E"%char.
Proof.
  unfold show, DecimalString.NilZero.string_of_int.
  destruct (Z.to_int z) as [d | d]; simpl.
  - unfold DecimalString.NilZero.string_of_uint.
    destruct d; simpl; eexists; eexists; (split; [reflexivity | discriminate]).
  - eexists; eexists. split; [reflexivity | discriminate].
Qed.

Lemma render_Expired (suffix : string) (r : Remaining) :
  render suffix r = "Expired" <-> r = RExpired.
Proof.
  split; [| now intros ->].
  destruct r as [| m | h m | d h]; cbn [render]; trivial; intro H; exfalso.
  - destruct (show_head m (String.append "m" suffix)) as (c & tl & Hs & Hc).
    rewrite Hs in H. injection H as -> _. now elim Hc.
  - destruct (show_head h
                (String.append "h "
                   (String.append (show m) (String.append "m" suffix))))
      as (c & tl & Hs & Hc).
    rewrite Hs in H. injection H as -> _. now elim Hc.
  - destruct (show_head d
                (String.append "d "
                   (String.append (show h) (String.append "h" suffix))))
      as (c & tl & Hs & Hc).
    rewrite Hs in H. injection H as -> _. now elim Hc.
Qed.

Lemma remaining_Expired (now expires : Z) :
  remaining now expires = RExpired <-> (expires - now < 60000)%Z.
Proof.
  unfold remaining. change (1000 * 60)%Z with 60000%Z.
  pose proof (Z.div_lt_upper_bound (expires - now) 60000 1 ltac:(lia)) as Hup.
  pose proof (Z.div_le_lower_bound (expires - now) 60000 1 ltac:(lia)) as Hlo.
  destruct (Z.leb_spec ((expires - now) / 60000) 0) as [Hle | Hgt].
  - split; trivial. intros _.
    destruct (Z.lt_ge_cases (expires - now) 60000); trivial. lia.
  - split.
    + destruct (((expires - now) / 60000 <? 60)%Z); [discriminate |].
      destruct (((expires - now) / 60000 <? 1440)%Z); discriminate.
    + intro Hlt. lia.
Qed.

(** X16.  Both components label a mapping [Expired] exactly when less than
    one whole minute is left before its expiry.  So a mapping in its last
    minute is labelled [Expired] while lookup still returns it. *)
Theorem label_expired_in_last_minute (now expires : Z) :
  (getTimeUntilExpiry now expires = "Expired"
   <-> (expires - now < 60000)%Z)
  /\ (getTimeUntilExpiry_statistics now expires = "Expired"
      <-> (expires - now < 60000)%Z)
  /\ (forall st code u,
         holder (urls st) code = Some u ->
         expires = expiresAt u ->
         (0 <= expires - now < 60000)%Z ->
         getTimeUntilExpiry now expires = "Expired"
         /\ getUrlByShortCode st code now = (Some u, st)).
Proof.
  unfold getTimeUntilExpiry, getTimeUntilExpiry_statistics.
  rewrite !render_Expired, remaining_Expired.
  split; [tauto |]. split; [tauto |].
  intros st code u Hh -> Hlast. split.
  - apply render_Expired, remaining_Expired. lia.
  - apply getUrlByShortCode_live; trivial. lia.
Qed.

(** X17.  The figures of the other labels: with [n] whole minutes left,
    the minutes label shows [n] for [1 <= n < 60]; the hours label shows
    [h] and [m] with [60 h + m = n], [1 <= h < 24], [0 <= m < 60]; the days
    label shows [d >= 1] and [0 <= h < 24] with
    [1440 d + 60 h <= n < 1440 d + 60 (h + 1)], the minutes being left
    out. *)
Theorem remaining_figures (now expires : Z) :
  let n := ((expires - now) / 60000)%Z in
  match remaining now expires with
  | RExpired => (n <= 0)%Z
  | RMinutes m => m = n /\ (1 <= n < 60)%Z
  | RHours h m =>
      (60 * h + m = n)%Z /\ (1 <= h < 24)%Z /\ (0 <= m < 60)%Z
  | RDays d h =>
      (1 <= d)%Z /\ (0 <= h < 24)%Z
      /\ (1440 * d + 60 * h <= n < 1440 * d + 60 * (h + 1))%Z
  end.
Proof.
  intro n. unfold remaining.
  change ((expires - now) / (1000 * 60))%Z with n. clearbody n.
  destruct (Z.leb_spec n 0) as [Hle | Hpos]; trivial.
  destruct (Z.ltb_spec n 60) as [Hm | Hm]; [lia |].
  destruct (Z.ltb_spec n 1440) as [Hh | Hh].
  - rewrite Z.rem_mod_nonneg by lia.
    pose proof (Z.div_mod n 60 ltac:(lia)).
    pose proof (Z.mod_pos_bound n 60 ltac:(lia)).
    pose proof (Z.div_lt_upper_bound n 60 24 ltac:(lia) ltac:(lia)).
    pose proof (Z.div_le_lower_bound n 60 1 ltac:(lia) ltac:(lia)).
    lia.
  - rewrite Z.rem_mod_nonneg by lia.
    pose proof (Z.div_mod n 1440 ltac:(lia)).
    pose proof (Z.mod_pos_bound n 1440 ltac:(lia)).
    pose proof (Z.div_le_lower_bound n 1440 1 ltac:(lia) ltac:(lia)).
    pose proof (Z.div_mod (n mod 1440) 60 ltac:(lia)).
    pose proof (Z.mod_pos_bound (n mod 1440) 60 ltac:(lia)).
    pose proof (Z.div_lt_upper_bound (n mod 1440) 60 24 ltac:(lia)
                                     ltac:(lia)).
    pose proof (Z.div_pos (n mod 1440) 60 ltac:(lia) ltac:(lia)).
    lia.
Qed.

(** * Properties of the redirect handler *)

Lemma listed_origin (st : UrlService) (t : Z) (e : ShortenedUrl) :
  In e (fst (getAllUrls st t)) <->
  exists v, In v (JsMap.values (urls st)) /\ e = refresh_expired t v.
Proof.
  unfold getAllUrls. simpl. rewrite values_update_all.
  split.
  - intro Hin. apply (Permutation_in _ (sort_Permutation _ _)) in Hin.
    apply in_map_iff in Hin. destruct Hin as (v & <- & Hv). eauto.
  - intros (v & Hv & ->).
    apply (Permutation_in _ (Permutation_sym (sort_Permutation _ _))).
    now apply in_map.
Qed.

Lemma refresh_expired_shortCode (t : Z) (u : ShortenedUrl) :
  shortCode (refresh_expired t u) = shortCode u.
Proof. unfold refresh_expired. now destruct (Z.gtb t (expiresAt u)). Qed.

Lemma refresh_expired_raised (t : Z) (u : ShortenedUrl) :
  isExpired u = true -> isExpired (refresh_expired t u) = true.
Proof. unfold refresh_expired. now destruct (Z.gtb t (expiresAt u)). Qed.

Lemma recordClickAndRedirect_not_live st code src env :
  holder (urls st) code = None
  \/ (exists u, holder (urls st) code = Some u
                /\ (at_time env > expiresAt u)%Z) ->
  recordClickAndRedirect st code src env
  = (None, snd (getUrlByShortCode st code (at_time env))).
Proof.
  intro Hdead.
  pose proof (getUrlByShortCode_not_live st code (at_time env) Hdead) as Hn.
  unfold recordClickAndRedirect.
  destruct (getUrlByShortCode st code (at_time env)) as [[u |] st'];
    simpl in *; [discriminate | reflexivity].
Qed.

(** X18.  What the redirect page shows.  Without a code in the route it
    shows not-found and touches nothing.  For a code that no stored
    mapping holds it shows not-found.  For a code whose holder is live it
    redirects to the stored URL, having recorded one access with source
    [direct].  For a code whose holder is past its expiry it shows expired,
    provided the stored codes are pairwise distinct, and records nothing. *)
Theorem redirect_status (st : UrlService) (env : ClickEnv) (t : Z) :
  redirect st None env t = (StatusNotFound, st)
  /\ redirect st (Some "") env t = (StatusNotFound, st)
  /\ (forall code,
         code <> "" -> holder (urls st) code = None ->
         fst (redirect st (Some code) env t) = StatusNotFound)
  /\ (forall code u,
         code <> "" -> holder (urls st) code = Some u ->
         (at_time env <= expiresAt u)%Z -> originalUrl u <> "" ->
         redirect st (Some code) env t
         = (StatusRedirecting (originalUrl u),
            snd (recordClickAndRedirect st code (Some "direct") env))
         /\ holder (urls (snd (redirect st (Some code) env t))) code
            = Some (push_click (click_of (Some "direct") env) u))
  /\ (forall code u,
         code <> "" -> NoDup (codes (urls st)) ->
         holder (urls st) code = Some u ->
         (at_time env > expiresAt u)%Z ->
         fst (redirect st (Some code) env t) = StatusExpired
         /\ click_table (urls (snd (redirect st (Some code) env t)))
            = click_table (urls st)).
Proof.
  split; [reflexivity |]. split; [reflexivity |].
  split; [| split].
  - intros code Hne Hnone. unfold redirect.
    rewrite (truthy_string_Some _ Hne).
    rewrite recordClickAndRedirect_not_live by now left.
    assert (Hst : snd (getUrlByShortCode st code (at_time env)) = st).
    { unfold getUrlByShortCode. unfold holder in Hnone. now rewrite Hnone. }
    rewrite Hst. cbn [truthy_string].
    destruct (getAllUrls st t) as [allUrls st2] eqn:Hall.
    destruct (find (code_matches code) allUrls) as [e |] eqn:Hf; trivial.
    exfalso. apply find_some in Hf. destruct Hf as [Hin Hcode].
    replace allUrls with (fst (getAllUrls st t)) in Hin by now rewrite Hall.
    apply listed_origin in Hin. destruct Hin as (v & Hv & ->).
    apply String.eqb_eq in Hcode. rewrite refresh_expired_shortCode in Hcode.
    exact (proj1 (holder_None _ _) Hnone v Hv Hcode).
  - intros code u Hne Hh Hle Hurl.
    destruct (update_first_split (code_matches code) (fun x => x) _ _ Hh)
      as (l1 & k & l2 & Hm & Hl1 & _).
    destruct (holder_Some _ _ _ Hh) as [_ Hcode].
    pose proof (recordClickAndRedirect_live st code (Some "direct") env
                  l1 k u l2 Hm Hl1 Hcode Hle) as Hrec.
    unfold redirect. rewrite (truthy_string_Some _ Hne), Hrec.
    rewrite (truthy_string_Some _ Hurl). split; [reflexivity |].
    simpl. now apply holder_split.
  - intros code u Hne Hnd Hh Hgt. unfold redirect.
    rewrite (truthy_string_Some _ Hne).
    rewrite recordClickAndRedirect_not_live by (right; eauto).
    cbn [truthy_string].
    set (st1 := snd (getUrlByShortCode st code (at_time env))).
    assert (Hh1 : holder (urls st1) code = Some (set_isExpired true u)).
    { destruct (update_first_split (code_matches code) (set_isExpired true)
                                   _ _ Hh) as (l1 & k & l2 & Hm & Hl1 & Hup).
      destruct (holder_Some _ _ _ Hh) as [_ Hcode].
      subst st1. unfold getUrlByShortCode. unfold holder in Hh. rewrite Hh.
      replace (Z.gtb (at_time env) (expiresAt u)) with true
        by (symmetry; rewrite Z.gtb_ltb; apply Z.ltb_lt; lia).
      simpl. rewrite Hup. now apply holder_split. }
    assert (Hnd1 : NoDup (codes (urls st1)))
      by (subst st1; now rewrite getUrlByShortCode_codes).
    assert (Htab : click_table (urls st1) = click_table (urls st))
      by (subst st1; apply getUrlByShortCode_click_table).
    destruct (getAllUrls st1 t) as [allUrls st2] eqn:Hall.
    assert (Hst2 : click_table (urls st2) = click_table (urls st)).
    { rewrite <- Htab.
      replace st2 with (snd (getAllUrls st1 t)) by now rewrite Hall.
      unfold getAllUrls, click_table, JsMap.update_all. simpl.
      rewrite map_map. apply map_ext. intros [k v]. simpl.
      unfold refresh_expired. now destruct (Z.gtb t (expiresAt v)). }
    destruct (find (code_matches code) allUrls) as [e |] eqn:Hf.
    + apply find_some in Hf. destruct Hf as [Hin Hcode].
      replace allUrls with (fst (getAllUrls st1 t)) in Hin
        by now rewrite Hall.
      apply listed_origin in Hin. destruct Hin as (v & Hv & ->).
      apply String.eqb_eq in Hcode.
      rewrite refresh_expired_shortCode in Hcode.
      pose proof (holder_unique _ _ _ Hnd1 Hv Hcode) as Hv1.
      rewrite Hh1 in Hv1. injection Hv1 as <-.
      rewrite refresh_expired_raised by reflexivity. auto.
    + exfalso. destruct (holder_Some _ _ _ Hh1) as [Hin Hcode].
      pose proof (find_none _ _ Hf (refresh_expired t (set_isExpired true u)))
        as Hno.
      unfold code_matches in Hno.
      rewrite refresh_expired_shortCode, Hcode, String.eqb_refl in Hno.
      assert (Hin' : In (refresh_expired t (set_isExpired true u)) allUrls).
      { replace allUrls with (fst (getAllUrls st1 t)) by now rewrite Hall.
        apply listed_origin. eauto. }
      specialize (Hno Hin'). discriminate.
Qed.

(** * Worked examples of the further properties *)

(** An identifier that is already the key of [promo1] makes the new
    mapping take its place: [promo1] is gone. *)
Lemma create_places_entry_witness :
  exists u st',
    createShortenedUrl https_only promo_registry
      (example_request None (Some "promo2"))
      (stuck_env (example_time + 1) promo_key)
    = (Created u, st')
    /\ shortCode u = "promo2"
    /\ urls st' = [] ++ (promo_key, u) :: [].
Proof.
  eexists. eexists.
  split; [vm_compute; reflexivity |].
  split; [reflexivity |].
  apply (proj2 (create_places_entry https_only promo_registry
                  (example_request None (Some "promo2"))
                  (stuck_env (example_time + 1) promo_key) _ _ eq_refl)
               [] promo_mapping []).
  - reflexivity.
  - intros [].
Defined.

(** [promo2], just created, is found until its expiry. *)
Lemma created_code_resolves_witness :
  exists u st',
    createShortenedUrl https_only promo_registry
      (example_request (Some 5%Z) (Some "promo2"))
      (stuck_env (example_time + 1) "1700000000001b")
    = (Created u, st')
    /\ getUrlByShortCode st' (shortCode u) (example_time + 300001)
       = (Some u, st')
    /\ fst (getUrlByShortCode st' (shortCode u) (example_time + 300002))
       = None.
Proof.
  eexists. eexists.
  split; [vm_compute; reflexivity |].
  destruct (created_code_resolves https_only promo_registry
              (example_request (Some 5%Z) (Some "promo2"))
              (stuck_env (example_time + 1) "1700000000001b") _ _
              eq_refl eq_refl) as (Hlive & _ & Hdead).
  split.
  - apply Hlive. vm_compute. discriminate.
  - apply Hdead. vm_compute. reflexivity.
Defined.


(** Once [promo1] is deleted, its code is unknown. *)
Lemma deleted_code_not_found_witness :
  fst (deleteUrl promo_registry promo_key) = true
  /\ getUrlByShortCode (snd (deleteUrl promo_registry promo_key))
       (shortCode promo_mapping) (example_time + 1)
     = (None, snd (deleteUrl promo_registry promo_key)).
Proof.
  destruct (deleted_code_not_found promo_registry promo_key promo_mapping)
    as (Hdel & Hlookup & _).
  - vm_compute. repeat constructor. intros [].
  - reflexivity.
  - split; [exact Hdel | apply Hlookup].
Defined.

(** A recorded access to [promo1] leaves its fixed fields and adds one
    click. *)
Lemma stored_entry_evolution_witness :
  (exists u,
      JsMap.get promo_key (urls promo_registry) = Some u
      /\ fixed_fields
           (push_click (click_of None (click_env (example_time + 10) "c1"))
                       promo_mapping)
         = fixed_fields u
      /\ (isExpired u = true ->
          isExpired
            (push_click (click_of None (click_env (example_time + 10) "c1"))
                        promo_mapping) = true)
      /\ exists extra,
          clicks
            (push_click (click_of None (click_env (example_time + 10) "c1"))
                        promo_mapping)
          = clicks u ++ extra
          /\ List.length extra <= 1
          /\ (is_record
                (OpRecord "promo1" None (click_env (example_time + 10) "c1"))
              = false -> extra = []))
  \/ (exists request env,
         OpRecord "promo1" None (click_env (example_time + 10) "c1")
         = OpCreate request env
         /\ promo_key = fresh env
         /\ clicks
              (push_click (click_of None (click_env (example_time + 10) "c1"))
                          promo_mapping) = []
         /\ isExpired
              (push_click (click_of None (click_env (example_time + 10) "c1"))
                          promo_mapping) = false).
Proof.
  apply (stored_entry_evolution https_only promo_registry
           (OpRecord "promo1" None (click_env (example_time + 10) "c1"))
           promo_key).
  - vm_compute. repeat constructor. intros [].
  - reflexivity.
Defined.

(** [promo1], found expired, still cannot be created again. *)
Lemma expired_code_stays_taken_witness :
  fst (getUrlByShortCode promo_registry "promo1" (example_time + 60001))
  = None
  /\ createShortenedUrl https_only
       (snd (getUrlByShortCode promo_registry "promo1"
               (example_time + 60001)))
       (example_request None (Some "promo1"))
       (stuck_env (example_time + 60002) "1700000060002f")
     = (ShortCodeTaken,
        snd (getUrlByShortCode promo_registry "promo1"
               (example_time + 60001))).
Proof.
  apply (expired_code_stays_taken https_only promo_registry "promo1"
           promo_mapping (example_time + 60001)
           (example_request None (Some "promo1"))
           (stuck_env (example_time + 60002) "1700000060002f"));
    reflexivity.
Defined.

(** Two custom codes and a generated one: all three are well formed. *)
Lemma stored_codes_well_formed_witness :
  Forall (fun c => isValidShortCode c = true)
         (codes
            (urls
               (run https_only (loadFromStorage None)
                  [OpCreate (example_request None (Some "promo1"))
                            (stuck_env example_time "1700000000000a");
                   OpCreate (example_request None None)
                            (stuck_env (example_time + 1) "1700000000001b")]))).
Proof.
  apply (stored_codes_well_formed https_only
           [OpCreate (example_request None (Some "promo1"))
                     (stuck_env example_time "1700000000000a");
            OpCreate (example_request None None)
                     (stuck_env (example_time + 1) "1700000000001b")]).
  simpl. repeat split; intro i; lia.
Defined.

(** The first entry logged into the empty store. *)
Lemma logger_drops_oldest_when_full_witness :
  Logger.log string [] example_time Logger.INFO "UrlService initialized"
             None (Some "UrlService")
  = Logger.mkEntry string example_time Logger.INFO "UrlService initialized"
                   None (Some "UrlService") :: firstn 999 []
  /\ List.length
       (Logger.log string [] example_time Logger.INFO
                   "UrlService initialized" None (Some "UrlService"))
     <= Logger.maxLogs.
Proof.
  destruct (logger_drops_oldest_when_full string [] example_time Logger.INFO
              "UrlService initialized" None (Some "UrlService"))
    as (Hlog & Hlen & _).
  - simpl. unfold Logger.maxLogs. lia.
  - split; [exact Hlog | exact Hlen].
Defined.

(** The form asking for [promo2] passes validation and, with [promo1]
    stored, yields the mapping of [promo2]. *)
Lemma validated_form_outcome_witness :
  (exists u st',
      submitForm https_only trim_nothing parse_digits promo_registry
        promo2_form (stuck_env (example_time + 1) "1700000000001b")
      = (Shortened u, st')
      /\ JsMap.get (id u) (urls st') = Some u
      /\ originalUrl u = form_originalUrl promo2_form
      /\ (form_customShortCode promo2_form <> "" ->
          shortCode u = form_customShortCode promo2_form))
  \/ (submitForm https_only trim_nothing parse_digits promo_registry
        promo2_form (stuck_env (example_time + 1) "1700000000001b")
      = (Failed "Short code already exists. Please choose a different one.",
         promo_registry)
      /\ form_customShortCode promo2_form <> ""
      /\ In (form_customShortCode promo2_form)
            (codes (urls promo_registry))).
Proof.
  apply (validated_form_outcome https_only trim_nothing parse_digits
           promo_registry promo2_form
           (stuck_env (example_time + 1) "1700000000001b")).
  reflexivity.
Defined.

(** The five minutes typed are the five minutes given. *)
Lemma validated_form_duration_witness :
  exists u st',
    submitForm https_only trim_nothing parse_digits promo_registry
      promo2_form (stuck_env (example_time + 1) "1700000000001b")
    = (Shortened u, st')
    /\ createdAt u = (example_time + 1)%Z
    /\ expiresAt u = (example_time + 1 + 5 * 60000)%Z.
Proof.
  eexists. eexists.
  split; [vm_compute; reflexivity |].
  destruct (validated_form_duration https_only trim_nothing parse_digits
              promo_registry promo2_form
              (stuck_env (example_time + 1) "1700000000001b") _ _
              eq_refl eq_refl) as (Hcreated & _).
  split; [exact Hcreated | reflexivity].
Defined.

(** Thirty seconds before the expiry of [promo1] the label reads
    [Expired] and the lookup still succeeds. *)
Lemma label_expired_in_last_minute_witness :
  getTimeUntilExpiry (example_time + 30000) (example_time + 60000)
  = "Expired"
  /\ getUrlByShortCode promo_registry "promo1" (example_time + 30000)
     = (Some promo_mapping, promo_registry).
Proof.
  apply (proj2 (proj2 (label_expired_in_last_minute
                         (example_time + 30000) (example_time + 60000)))
               promo_registry "promo1" promo_mapping);
    [reflexivity | reflexivity |].
  unfold example_time. lia.
Defined.

(** The redirect page for [promo1]: a redirection while it is live, the
    expired page one second after its expiry. *)
Lemma redirect_status_witness :
  fst (redirect promo_registry (Some "promo1")
         (click_env (example_time + 10) "c1") (example_time + 11))
  = StatusRedirecting example_url
  /\ fst (redirect promo_registry (Some "promo1")
            (click_env (example_time + 61000) "c2") (example_time + 61001))
     = StatusExpired.
Proof.
  split.
  - destruct (proj1 (proj2 (proj2 (proj2
                (redirect_status promo_registry
                   (click_env (example_time + 10) "c1")
                   (example_time + 11)))))
                    "promo1" promo_mapping) as [Hred _].
    + discriminate.
    + reflexivity.
    + vm_compute. discriminate.
    + discriminate.
    + now rewrite Hred.
  - apply (proj2 (proj2 (proj2 (proj2
             (redirect_status promo_registry
                (click_env (example_time + 61000) "c2")
                (example_time + 61001)))))
                 "promo1" promo_mapping).
    + discriminate.
    + vm_compute. repeat constructor. intros [].
    + reflexivity.
    + vm_compute. reflexivity.
Defined.
